(** * pyosxdict: the Apple Dictionary body reader ([osxdict/structs.py],
    [osxdict/dictionary.py]) embedded in Rocq.

    Bytes are [Z] values in [0, 255]; decoded Python [str] values are lists of
    code points ([text]).  The open body file is a fixed byte list; the
    reader's mutable attributes ([self._block_pos], [self._index], ...) and
    the file position live in a state record threaded by a state/exception
    monad, so that a Python exception keeps the mutations made before it. *)

From Stdlib Require Import ZArith Lia String Ascii List Sorting.
From stdpp Require Import base gmap list.
Import ListNotations.
Open Scope string_scope.
Open Scope list_scope.
Open Scope Z_scope.

(** ** Little-endian integers *)

Definition byte_at (bs : list Z) (i : nat) : Z := nth i bs 0.

Definition le32 (bs : list Z) (off : nat) : Z :=
  byte_at bs off + 256 * byte_at bs (off + 1)
  + 65536 * byte_at bs (off + 2) + 16777216 * byte_at bs (off + 3).

Definition le32_bytes (v : Z) : list Z :=
  [Z.land v 255; Z.land (Z.shiftr v 8) 255;
   Z.land (Z.shiftr v 16) 255; Z.land (Z.shiftr v 24) 255].

(** ** [structs.py]: ctypes layouts, [_pack_ = 1], so a field's offset is the
    sum of the sizes of the fields before it. *)

Definition layout := list (string * nat).

Fixpoint field_offset (name : string) (l : layout) : nat :=
  match l with
  | [] => 0
  | (n, sz) :: l' => if String.eqb n name then 0 else (sz + field_offset name l')%nat
  end.

Definition sizeof (l : layout) : nat := sum_list_with snd l.

Definition DictHeader_fields : layout :=
  [("unknown1", 64%nat); ("stream_length", 4%nat); ("unknown2", 8%nat);
   ("check", 4%nat); ("unknown3", 4%nat); ("block_count", 4%nat);
   ("unknown4", 8%nat)].

Definition BlockHeader_fields : layout :=
  [("next_block", 4%nat); ("block_length", 4%nat); ("unpacked_length", 4%nat)].

Definition EntryHeader_fields : layout := [("length", 4%nat)].

Record DictHeader := mkDictHeader {
  dh_stream_length : Z;
  dh_check : Z;
  dh_block_count : Z
}.

Definition parse_DictHeader (bs : list Z) : DictHeader :=
  {| dh_stream_length := le32 bs (field_offset "stream_length" DictHeader_fields);
     dh_check := le32 bs (field_offset "check" DictHeader_fields);
     dh_block_count := le32 bs (field_offset "block_count" DictHeader_fields) |}.

(** [DictHeader.is_valid] *)
Definition is_valid (h : DictHeader) : bool := dh_check h =? 32.

Record BlockHeader := mkBlockHeader {
  next_block : Z;
  block_length : Z;
  unpacked_length : Z
}.

Definition parse_BlockHeader (bs : list Z) : BlockHeader :=
  {| next_block := le32 bs (field_offset "next_block" BlockHeader_fields);
     block_length := le32 bs (field_offset "block_length" BlockHeader_fields);
     unpacked_length := le32 bs (field_offset "unpacked_length" BlockHeader_fields) |}.

(** [BlockHeader.get_next_block] *)
Definition get_next_block (h : BlockHeader) (file_pos : Z) : Z :=
  file_pos + next_block h - Z.of_nat (field_offset "unpacked_length" BlockHeader_fields).

Definition entry_length (bs : list Z) : Z :=
  le32 bs (field_offset "length" EntryHeader_fields).

Definition KeyIndexHeader_fields : layout :=
  [("unknown1", 66%nat); ("check", 4%nat)].

Record KeyIndexHeader := mkKeyIndexHeader { kh_check : Z }.

Definition parse_KeyIndexHeader (bs : list Z) : KeyIndexHeader :=
  {| kh_check := le32 bs (field_offset "check" KeyIndexHeader_fields) |}.

(** [KeyIndexHeader.is_valid] *)
Definition key_index_is_valid (h : KeyIndexHeader) : bool := kh_check h =? 32.

(** [structs._sanity_check], run when the module is imported: [true] iff
    none of its assertions fails. *)
Definition sanity_check : bool :=
  (field_offset "stream_length" DictHeader_fields =? 64)%nat
  && (field_offset "check" DictHeader_fields =? 76)%nat
  && (field_offset "block_count" DictHeader_fields =? 84)%nat
  && (sizeof DictHeader_fields =? 96)%nat
  && (field_offset "next_block" BlockHeader_fields =? 0)%nat
  && (field_offset "block_length" BlockHeader_fields =? 4)%nat
  && (field_offset "unpacked_length" BlockHeader_fields =? 8)%nat
  && (sizeof BlockHeader_fields =? 12)%nat.

(** ** Python exceptions raised along the modelled paths *)

Inductive exn :=
| ValueError (msg : string)
| RuntimeError (msg : string)
| KeyError
| TypeError
| ZlibError
| UnicodeDecodeError
| OSError.

Inductive res (A : Type) :=
| Ok (a : A)
| Err (e : exn).
Arguments Ok {A} a.
Arguments Err {A} e.

(** Python [str] values: lists of code points. *)
Abbreviation text := (list Z).

Definition str_cp (s : string) : text :=
  map (fun c => Z.of_nat (nat_of_ascii c)) (list_ascii_of_string s).

(** [collections.namedtuple('BlockOffset', 'block offset')] *)
Record BlockOffset := BO { bo_block : Z; bo_offset : nat }.

(** ** A state and exception monad: Python methods that mutate [self] and
    may raise. *)

Definition SM (S A : Type) : Type := S -> res A * S.

Definition ret {S A} (a : A) : SM S A := fun s => (Ok a, s).

Definition bind {S A B} (m : SM S A) (k : A -> SM S B) : SM S B :=
  fun s => match m s with
           | (Ok a, s') => k a s'
           | (Err e, s') => (Err e, s')
           end.

Definition raise {S A} (e : exn) : SM S A := fun s => (Err e, s).

Definition get {S} : SM S S := fun s => (Ok s, s).

Definition modify {S} (f : S -> S) : SM S unit := fun s => (Ok tt, f s).

Notation "'let*' x ':=' m 'in' k" := (bind m (fun x => k))
  (at level 200, x name, m at level 100, k at level 200).
Notation "'let*' ' p ':=' m 'in' k" :=
  (bind m (fun x => match x with p => k end))
  (at level 200, p pattern, m at level 100, k at level 200).

(** ** The reader's state: the file position, the attributes of
    [DictionaryBody], and a count of [readinto] calls on the file. *)

Record st (Ival : Type) := mkSt {
  f_pos : Z;
  reads : nat;
  stream_length : Z;
  block_count : Z;
  block_pos : gmap Z Z;
  index : option (gmap text (list BlockOffset));
  cache : option (gmap text (list Ival))
}.
Arguments mkSt {Ival}.
Arguments f_pos {Ival}.
Arguments reads {Ival}.
Arguments stream_length {Ival}.
Arguments block_count {Ival}.
Arguments block_pos {Ival}.
Arguments index {Ival}.
Arguments cache {Ival}.

Section Setters.
Context {Ival : Type}.

Definition set_file (s : st Ival) (p : Z) (r : nat) : st Ival :=
  mkSt p r (stream_length s) (block_count s) (block_pos s) (index s) (cache s).

Definition set_header (s : st Ival) (sl bc : Z) (bp : gmap Z Z) : st Ival :=
  mkSt (f_pos s) (reads s) sl bc bp (index s) (cache s).

Definition set_block_pos (s : st Ival) (bp : gmap Z Z) : st Ival :=
  mkSt (f_pos s) (reads s) (stream_length s) (block_count s) bp (index s) (cache s).

Definition set_index (s : st Ival) (ix : option (gmap text (list BlockOffset))) : st Ival :=
  mkSt (f_pos s) (reads s) (stream_length s) (block_count s) (block_pos s) ix (cache s).

Definition set_cache (s : st Ival) (c : option (gmap text (list Ival))) : st Ival :=
  mkSt (f_pos s) (reads s) (stream_length s) (block_count s) (block_pos s) (index s) c.

(** [DictionaryBody.__init__] followed by nothing: file position 0, no
    index, the entry cache present iff [cache=True]. *)
Definition init_st (cache_on : bool) : st Ival :=
  mkSt 0 0 0 0 ∅ None (if cache_on then Some ∅ else None).

End Setters.

(** ** [DictionaryBody] *)

Section DictionaryBody.
Context {Ival : Type}.

(** The bytes of the open body file. *)
Variable file : list Z.
(** [zlib.decompress]: [None] when zlib raises. *)
Variable decompress : list Z -> option (list Z).
(** [bytes.decode(self._encoding)]: [None] when decoding raises. *)
Variable decode : list Z -> option text.
(** [self.interpret_text] *)
Variable interpret_text : text -> Ival.
(** [self._title_tag] *)
Variable title_tag : text.

Local Abbreviation M := (SM (st Ival)).

(** [f.readinto(buf)] on the binary file: reads up to [len(buf)] bytes at the
    current position; bytes past the end of the file leave [buf] as it was. *)
Definition f_readinto (prior : list Z) : M (list Z) := fun s =>
  let got := take (length prior) (drop (Z.to_nat (f_pos s)) file) in
  (Ok (got ++ drop (length got) prior),
   set_file s (f_pos s + Z.of_nat (length got)) (S (reads s))).

(** [f.seek(p)]: a negative position raises. *)
Definition f_seek (p : Z) : M unit := fun s =>
  if p <? 0 then (Err OSError, s) else (Ok tt, set_file s p (reads s)).

(** [f.tell()] *)
Definition f_tell : M Z := fun s => (Ok (f_pos s), s).

(** [DictionaryBody._read_body_header] (called by [open]) *)
Definition read_body_header : M unit :=
  let* _ := f_seek 0 in
  let* bs := f_readinto (repeat 0 (sizeof DictHeader_fields)) in
  let header := parse_DictHeader bs in
  if negb (is_valid header) then raise (ValueError "Invalid dictionary header")
  else
    let* p := f_tell in
    modify (fun s => set_header s (dh_stream_length header) (dh_block_count header)
                       {[0 := p]}).

(** [DictionaryBody._read_raw_entry_block] *)
Definition read_raw_entry_block (header : BlockHeader) : M (list Z) :=
  let* buf := f_readinto (repeat 0 (Z.to_nat (block_length header))) in
  match decompress buf with
  | None => raise ZlibError
  | Some buf =>
      if negb (Z.of_nat (length buf) =? unpacked_length header)
      then raise (RuntimeError "Unpacked length")
      else ret buf
  end.

(** [DictionaryBody._read_block_header()] with [index=None]: the header is
    read at the current file position. *)
Definition read_block_header_here : M (BlockHeader * Z) :=
  let* bs := f_readinto (repeat 0 (sizeof BlockHeader_fields)) in
  let header := parse_BlockHeader bs in
  let* p := f_tell in
  let nb := get_next_block header p in
  if 100000000 <? block_length header
  then raise (RuntimeError "Unexpected block length")
  else ret (header, nb).

(** The [for i in range(self._block_count)] loop of [_find_blocks]. *)
Fixpoint find_blocks_loop (i : nat) (n : nat) : M unit :=
  match n with
  | O => ret tt
  | S n' =>
      let* p := f_tell in
      let* _ := modify (fun s => set_block_pos s (<[Z.of_nat i := p]> (block_pos s))) in
      let* '(_, nb) := read_block_header_here in
      let* _ := f_seek nb in
      find_blocks_loop (S i) n'
  end.

(** [DictionaryBody._find_blocks] (the file is open) *)
Definition find_blocks : M unit :=
  let* s := get in
  if 1 <? Z.of_nat (map_size (block_pos s)) then ret tt
  else
    match block_pos s !! 0 with
    | None => raise KeyError
    | Some p0 =>
        let* _ := f_seek p0 in
        find_blocks_loop 0 (Z.to_nat (block_count s))
    end.

(** [DictionaryBody.seek_block]: the [except IndexError] clause never fires,
    a missing key of the dict [self._block_pos] raises [KeyError]. *)
Definition seek_block (block_index : Z) : M unit :=
  let* _ := find_blocks in
  let* s := get in
  match block_pos s !! block_index with
  | None => raise KeyError
  | Some p => f_seek p
  end.

(** [DictionaryBody._read_block_header(index)] *)
Definition read_block_header (idx : option Z) : M (BlockHeader * Z) :=
  let* _ := match idx with Some i => seek_block i | None => ret tt end in
  read_block_header_here.

(** [f.readinto(buf)] on the [io.BytesIO] holding a decompressed block. *)
Definition buf_readinto (buf : list Z) (pos : nat) (prior : list Z) : list Z * nat :=
  let got := take (length prior) (drop pos buf) in
  (got ++ drop (length got) prior, (pos + length got)%nat).

(** [DictionaryBody._entry_from_block(f, entry_header)] with the cursor of
    [f] at [pos]: the text, the new cursor, and the bytes left in the
    [EntryHeader] object. *)
Definition entry_from_block (buf : list Z) (pos : nat) (entry_header : list Z)
  : res (text * nat * list Z) :=
  let '(eh, pos1) := buf_readinto buf pos entry_header in
  let '(raw_entry, pos2) :=
    buf_readinto buf pos1 (repeat 0 (Z.to_nat (entry_length eh))) in
  match decode raw_entry with
  | Some entry_text => Ok (entry_text, pos2, eh)
  | None => Err UnicodeDecodeError
  end.

(** The [while entry_buf.tell() < len(buf)] loop of
    [DictionaryBody._read_entries]: the yielded [(pos, entry_text)] pairs,
    then the exception that ends the generator, if any.  One [EntryHeader]
    object is shared by all iterations.  Every iteration advances the cursor,
    so [length buf] iterations are enough. *)
Fixpoint read_entries_loop (fuel : nat) (buf : list Z) (pos : nat) (eh : list Z)
  : list (nat * text) * option exn :=
  match fuel with
  | O => ([], None)
  | S fuel' =>
      if (pos <? length buf)%nat then
        match entry_from_block buf pos eh with
        | Err e => ([], Some e)
        | Ok (t, pos', eh') =>
            let '(l, e) := read_entries_loop fuel' buf pos' eh' in ((pos, t) :: l, e)
        end
      else ([], None)
  end.

Definition read_entries_of (buf : list Z) : list (nat * text) * option exn :=
  read_entries_loop (length buf) buf 0 (repeat 0 (sizeof EntryHeader_fields)).

(** Feeding the entries of block [blk] to the body of the consumer's [for]
    loop. *)
Fixpoint feed {A} (body : A -> Z * nat * text -> M A) (blk : Z)
  (l : list (nat * text)) (e : option exn) (a : A) : M A :=
  match l with
  | [] => match e with None => ret a | Some ex => raise ex end
  | (p, t) :: l' => let* a' := body a (blk, p, t) in feed body blk l' e a'
  end.

(** [DictionaryBody.read_all_entries] consumed by a [for] loop whose body is
    [body] (a generator interleaves its effects with the loop body). *)
Fixpoint read_all_entries_loop {A} (body : A -> Z * nat * text -> M A)
  (i : nat) (n : nat) (a : A) : M A :=
  match n with
  | O => ret a
  | S n' =>
      let* '(header, _) := read_block_header (Some (Z.of_nat i)) in
      let* buf := read_raw_entry_block header in
      let '(l, e) := read_entries_of buf in
      let* a' := feed body (Z.of_nat i) l e a in
      read_all_entries_loop body (S i) n' a'
  end.

Definition read_all_entries {A} (body : A -> Z * nat * text -> M A) (a : A) : M A :=
  let* s := get in
  read_all_entries_loop body 0 (Z.to_nat (block_count s)) a.

(** [list(self.read_all_entries())]: the full scan of the container. *)
Definition stream_all_entries : M (list (Z * nat * text)) :=
  read_all_entries (fun acc it => ret (acc ++ [it])) [].

Fixpoint is_prefix (p t : text) : bool :=
  match p, t with
  | [], _ => true
  | x :: p', y :: t' => (x =? y) && is_prefix p' t'
  | _ :: _, [] => false
  end.

Fixpoint str_index_from (t sub : text) (k : nat) : option nat :=
  if is_prefix sub t then Some k
  else match t with
       | [] => None
       | _ :: t' => str_index_from t' sub (S k)
       end.

(** [str.index]: raises [ValueError] when [sub] does not occur. *)
Definition str_index (t sub : text) : res nat :=
  match str_index_from t sub 0 with
  | Some k => Ok k
  | None => Err (ValueError "substring not found")
  end.

(** One iteration of the loop of [DictionaryBody.build_index] on the index
    dict.  The [except IndexError] clause never catches: [str.index] raises
    [ValueError]. *)
Definition index_step (tag : text) (idx : gmap text (list BlockOffset))
  (it : Z * nat * text) : res (gmap text (list BlockOffset)) :=
  let '(block, offset, block_text) := it in
  match str_index block_text tag with
  | Err e => Err e
  | Ok k =>
      let title := drop (k + length tag) block_text in
      match str_index title [34] with
      | Err e => Err e
      | Ok q =>
          let title := take q title in
          match title with
          | [] => Ok idx
          | _ => Ok (<[title := default [] (idx !! title) ++ [BO block offset]]> idx)
          end
      end
  end.

Definition build_index_body (tag : text) (_ : unit) (it : Z * nat * text) : M unit :=
  fun s =>
    match index s with
    | None => (Err TypeError, s)
    | Some idx =>
        match index_step tag idx it with
        | Ok idx' => (Ok tt, set_index s (Some idx'))
        | Err e => (Err e, s)
        end
    end.

(** [DictionaryBody.build_index]; the tag is [title_tag] followed by [=] and a double quote (code points 61, 34). *)
Definition build_index : M unit :=
  let* s := get in
  match index s with
  | Some _ => ret tt
  | None =>
      let* _ := modify (fun s => set_index s (Some ∅)) in
      read_all_entries (build_index_body (title_tag ++ [61; 34])) tt
  end.

(** [DictionaryBody._read_entry] *)
Definition read_entry (block_offset : BlockOffset) : M text :=
  let* '(header, _) := read_block_header (Some (bo_block block_offset)) in
  let* raw_entries := read_raw_entry_block header in
  match entry_from_block (drop (bo_offset block_offset) raw_entries) 0
          (repeat 0 (sizeof EntryHeader_fields)) with
  | Ok (t, _, _) => ret t
  | Err e => raise e
  end.

Fixpoint map_M {A B} (f : A -> M B) (l : list A) : M (list B) :=
  match l with
  | [] => ret []
  | x :: l' => let* y := f x in let* ys := map_M f l' in ret (y :: ys)
  end.

(** [DictionaryBody.__getitem__]; a [None] index is not subscriptable. *)
Definition getitem (word : text) : M (list Ival) :=
  let* s := get in
  match match cache s with Some c => c !! word | None => None end with
  | Some v => ret v
  | None =>
      match index s with
      | None => raise TypeError
      | Some idx =>
          match idx !! word with
          | None => raise KeyError
          | Some block_offs =>
              let* matches :=
                map_M (fun bo => let* t := read_entry bo in ret (interpret_text t))
                  block_offs in
              let* _ := modify (fun s => match cache s with
                                         | Some c => set_cache s (Some (<[word := matches]> c))
                                         | None => s
                                         end) in
              ret matches
          end
      end
  end.

(** [DictionaryBody.__iter__], consumed by [list]: the interpreted text of
    every entry [read_all_entries] yields. *)
Definition iter_entries : M (list Ival) :=
  read_all_entries (fun acc '(_, _, entry_text) => ret (acc ++ [interpret_text entry_text])) [].

End DictionaryBody.

(** ** Concrete collaborators, used to build and run example containers *)

Definition utf8_cont (b : Z) : bool := (128 <=? b) && (b <=? 191).

(** Python's strict UTF-8 decoder ([bytes.decode('utf-8')]). *)
Fixpoint utf8_decode (bs : list Z) : option text :=
  match bs with
  | [] => Some []
  | b0 :: r0 =>
      if b0 <? 128 then option_map (cons b0) (utf8_decode r0)
      else if (194 <=? b0) && (b0 <=? 223) then
        match r0 with
        | b1 :: r1 =>
            if utf8_cont b1
            then option_map (cons (Z.lor (Z.shiftl (Z.land b0 31) 6) (Z.land b1 63)))
                   (utf8_decode r1)
            else None
        | [] => None
        end
      else if (224 <=? b0) && (b0 <=? 239) then
        match r0 with
        | b1 :: b2 :: r2 =>
            let lo := if b0 =? 224 then 160 else 128 in
            let hi := if b0 =? 237 then 159 else 191 in
            if (lo <=? b1) && (b1 <=? hi) && utf8_cont b2
            then option_map
                   (cons (Z.lor (Z.shiftl (Z.land b0 15) 12)
                            (Z.lor (Z.shiftl (Z.land b1 63) 6) (Z.land b2 63))))
                   (utf8_decode r2)
            else None
        | _ => None
        end
      else if (240 <=? b0) && (b0 <=? 244) then
        match r0 with
        | b1 :: b2 :: b3 :: r3 =>
            let lo := if b0 =? 240 then 144 else 128 in
            let hi := if b0 =? 244 then 143 else 191 in
            if (lo <=? b1) && (b1 <=? hi) && utf8_cont b2 && utf8_cont b3
            then option_map
                   (cons (Z.lor (Z.shiftl (Z.land b0 7) 18)
                            (Z.lor (Z.shiftl (Z.land b1 63) 12)
                               (Z.lor (Z.shiftl (Z.land b2 63) 6) (Z.land b3 63)))))
                   (utf8_decode r3)
            else None
        | _ => None
        end
      else None
  end.

Definition adler32 (bs : list Z) : Z :=
  let '(a, b) := fold_left (fun '(a, b) x =>
                              let a' := (a + x) mod 65521 in (a', (b + a') mod 65521))
                            bs (1, 0) in
  b * 65536 + a.

(** Deflate blocks of type 0 (stored), each at a byte boundary. *)
Fixpoint inflate_stored (fuel : nat) (bs acc : list Z) : option (list Z * list Z) :=
  match fuel with
  | O => None
  | S fuel' =>
      match bs with
      | h :: l0 :: l1 :: n0 :: n1 :: rest =>
          let len := l0 + 256 * l1 in
          if negb (Z.land (Z.shiftr h 1) 3 =? 0) then None
          else if negb (Z.lxor len (n0 + 256 * n1) =? 65535) then None
          else if (length rest <? Z.to_nat len)%nat then None
          else
            let acc' := acc ++ take (Z.to_nat len) rest in
            if Z.land h 1 =? 1 then Some (acc', drop (Z.to_nat len) rest)
            else inflate_stored fuel' (drop (Z.to_nat len) rest) acc'
      | _ => None
      end
  end.

(** [zlib.decompress] on streams whose deflate data is made of stored
    blocks: header check, stored blocks, Adler-32 trailer.  Streams with
    Huffman-coded blocks are outside this instance (it rejects them). *)
Definition zlib_decompress_stored (bs : list Z) : option (list Z) :=
  match bs with
  | cmf :: flg :: rest =>
      if negb ((cmf * 256 + flg) mod 31 =? 0) then None
      else if negb (Z.land cmf 15 =? 8) then None
      else if 7 <? Z.shiftr cmf 4 then None
      else if negb (Z.land flg 32 =? 0) then None
      else
        match inflate_stored (length rest) rest [] with
        | Some (out, a0 :: a1 :: a2 :: a3 :: _) =>
            if a0 * 16777216 + a1 * 65536 + a2 * 256 + a3 =? adler32 out
            then Some out else None
        | _ => None
        end
  | _ => None
  end.

(** A one-stored-block zlib stream holding [d] (for [length d < 65536]). *)
Definition zlib_stored (d : list Z) : list Z :=
  let n := Z.of_nat (length d) in
  let ad := adler32 d in
  [120; 1; 1; Z.land n 255; Z.shiftr n 8;
   Z.land (Z.lxor n 65535) 255; Z.shiftr (Z.lxor n 65535) 8]
  ++ d ++
  [Z.land (Z.shiftr ad 24) 255; Z.land (Z.shiftr ad 16) 255;
   Z.land (Z.shiftr ad 8) 255; Z.land ad 255].

(** Writers for the on-disk layout (section 6 of the spec). *)
Definition write_entry (raw : list Z) : list Z :=
  le32_bytes (Z.of_nat (length raw)) ++ raw.

Definition write_entries (raws : list (list Z)) : list Z :=
  concat (map write_entry raws).

Definition dict_header_bytes (block_count : Z) : list Z :=
  repeat 0 76 ++ le32_bytes 32 ++ repeat 0 4 ++ le32_bytes block_count ++ repeat 0 8.

(** A block whose [next_block] field chains to the byte after its payload. *)
Definition block_bytes (payload : list Z) : list Z :=
  let stream := zlib_stored payload in
  let bl := Z.of_nat (length stream) in
  le32_bytes (bl + 8) ++ le32_bytes bl ++ le32_bytes (Z.of_nat (length payload)) ++ stream.

Definition container (blocks : list (list (list Z))) : list Z :=
  dict_header_bytes (Z.of_nat (length blocks))
  ++ concat (map (fun b => block_bytes (write_entries b)) blocks).

Definition d_title : text := str_cp "d:title".

Definition ex_entry (title body : string) : list Z :=
  str_cp "<e d:title=" ++ [34] ++ str_cp title ++ [34] ++ str_cp ">"
  ++ str_cp body ++ str_cp "</e>".

(** Offsets of the entries that [write_entries] lays out from [o] on. *)
Fixpoint entry_offsets (o : nat) (raws : list (list Z)) : list nat :=
  match raws with
  | [] => []
  | raw :: raws' => o :: entry_offsets (o + 4 + length raw)%nat raws'
  end.

(** Example containers. *)
Definition one_block_file : list Z := container [[ex_entry "a" "x"]].

Definition two_block_file : list Z :=
  container [[ex_entry "a" "x"; ex_entry "b" "y"]; [ex_entry "a" "z"]].

Definition untitled_entry_file : list Z :=
  container [[ex_entry "a" "x"; str_cp "plain text"]].

(** A container header that ends at byte 0x4d, in the middle of [check]. *)
Definition short_header_file : list Z := repeat 0 76 ++ [32].

Definition opened (f : list Z) : st text := snd (read_body_header f (init_st false)).

(** A block header whose payload is a stored zlib stream of [1; 2; 3] with
    one data byte changed. *)
Definition corrupt_payload : list Z :=
  match zlib_stored [1; 2; 3] with
  | a :: b :: c :: d :: e :: f :: g :: x :: rest => a :: b :: c :: d :: e :: f :: g :: (x + 1) :: rest
  | l => l
  end.

Definition corrupt_header : BlockHeader :=
  mkBlockHeader 0 (Z.of_nat (length corrupt_payload)) 3.

(** The two-block container after [open] and after [build_index], and the
    index [build_index] leaves in it. *)
Definition two_block_s0 : st text := opened two_block_file.
Definition two_block_s1 : st text :=
  snd (build_index two_block_file zlib_decompress_stored utf8_decode d_title two_block_s0).
Definition two_block_idx : gmap text (list BlockOffset) := default ∅ (index two_block_s1).

(** The order in which entries come out of the stream: by block, then by
    offset within the block. *)
Definition entry_before (a b : Z * nat * text) : Prop :=
  fst (fst a) < fst (fst b) \/ (fst (fst a) = fst (fst b) /\ (snd (fst a) < snd (fst b))%nat).

(** [BlockOffset]s in the order of the container. *)
Definition bo_before (a b : BlockOffset) : Prop :=
  bo_block a < bo_block b \/ (bo_block a = bo_block b /\ (bo_offset a < bo_offset b)%nat).

(** The indexed two-block container with an empty entry cache. *)
Definition cached_s1 : st text := set_cache two_block_s1 (Some ∅).

(** ** Proof infrastructure

    Relations between reader states, the blocks as [find_blocks] leaves
    them, and a pure account of a full pass over the entries. *)

Section Scan.
Context {Ival : Type}.
Variable file : list Z.
Variable decompress : list Z -> option (list Z).
Variable decode : list Z -> option text.
(** The state right after [open]. *)
Variable s0 : st Ival.

Local Abbreviation M := (SM (st Ival)).
Local Abbreviation p0 := (f_pos s0).
Local Abbreviation bc0 := (block_count s0).
Local Abbreviation sW := (snd (find_blocks file s0)).
Local Abbreviation T_w := (block_pos sW).

(** Raw entries that decode to the given texts and fit a [c_uint] length. *)
Definition decodes (raws : list (list Z)) (ts : list text) : Prop :=
  Forall2 (fun raw t => decode raw = Some t /\ Z.of_nat (length raw) < 2 ^ 32) raws ts.

Definition eqv (s1 s2 : st Ival) : Prop :=
  f_pos s1 = f_pos s2 /\ block_pos s1 = block_pos s2 /\ block_count s1 = block_count s2.

Definition resp {A} (m : M A) : Prop :=
  forall s1 s2, eqv s1 s2 -> fst (m s1) = fst (m s2) /\ eqv (snd (m s1)) (snd (m s2)).

Definition keeps {A} (R : st Ival -> st Ival -> Prop) (m : M A) : Prop :=
  forall s, R s (snd (m s)).

Definition same_ic (s s' : st Ival) : Prop :=
  index s' = index s /\ cache s' = cache s /\ block_count s' = block_count s.

Definition same_fix (s s' : st Ival) : Prop :=
  same_ic s s' /\ block_pos s' = block_pos s.

Definition same_at (k : Z) (s s' : st Ival) : Prop :=
  block_pos s' !! k = block_pos s !! k.

(** The index attribute, once set, stays set. *)
Definition has_index (s s' : st Ival) : Prop := is_Some (index s) -> is_Some (index s').

Definition block_read (j : Z) : M (list Z) :=
  let* '(header, _) := read_block_header file (Some j) in
  read_raw_entry_block file decompress header.

Definition block_tail : M (list Z) :=
  let* '(header, _) := read_block_header_here file in
  read_raw_entry_block file decompress header.

Definition tag_items (j : Z) (l : list (nat * text)) : list (Z * nat * text) :=
  map (fun pt => (j, fst pt, snd pt)) l.

Fixpoint gfold {A} (g : A -> Z * nat * text -> option (gmap text (list BlockOffset))
                       -> res A * option (gmap text (list BlockOffset)))
  (its : list (Z * nat * text)) (a : A) (u : option (gmap text (list BlockOffset)))
  : res A * option (gmap text (list BlockOffset)) :=
  match its with
  | [] => (Ok a, u)
  | it :: its' =>
      match g a it u with
      | (Ok a', u') => gfold g its' a' u'
      | (Err e, u') => (Err e, u')
      end
  end.

Definition scan_result {A} (g : A -> Z * nat * text -> option (gmap text (list BlockOffset))
                                -> res A * option (gmap text (list BlockOffset)))
  (r : list (Z * nat * text) * option exn) (a : A) (u : option (gmap text (list BlockOffset)))
  : res A * option (gmap text (list BlockOffset)) :=
  match gfold g (fst r) a u with
  | (Ok a', u') => (match snd r with None => Ok a' | Some e => Err e end, u')
  | (Err e, u') => (Err e, u')
  end.

Definition body_by {A} (g : A -> Z * nat * text -> option (gmap text (list BlockOffset))
                            -> res A * option (gmap text (list BlockOffset)))
  (body : A -> Z * nat * text -> M A) : Prop :=
  forall a it s, body a it s = (fst (g a it (index s)), set_index s (snd (g a it (index s)))).

Definition entry_title (tag block_text : text) : res text :=
  match str_index block_text tag with
  | Err e => Err e
  | Ok k =>
      let title := drop (k + length tag) block_text in
      match str_index title [34] with
      | Err e => Err e
      | Ok q => Ok (take q title)
      end
  end.

Definition it_text (it : Z * nat * text) : text := snd it.

Definition it_bo (it : Z * nat * text) : BlockOffset := BO (fst (fst it)) (snd (fst it)).

Definition title_is (tag title : text) (it : Z * nat * text) : bool :=
  match entry_title tag (it_text it) with
  | Ok t => bool_decide (t = title)
  | Err _ => false
  end.

Definition g_index (tag : text) (_ : unit) (it : Z * nat * text)
  (u : option (gmap text (list BlockOffset))) : res unit * option (gmap text (list BlockOffset)) :=
  match u with
  | None => (Err TypeError, None)
  | Some idx =>
      match index_step tag idx it with
      | Ok idx' => (Ok tt, Some idx')
      | Err e => (Err e, Some idx)
      end
  end.

Definition g_collect (acc : list (Z * nat * text)) (it : Z * nat * text)
  (u : option (gmap text (list BlockOffset)))
  : res (list (Z * nat * text)) * option (gmap text (list BlockOffset)) :=
  (Ok (acc ++ [it]), u).

Definition ready (s : st Ival) : Prop := block_pos s = T_w /\ block_count s = bc0.

Definition pre_ready (s : st Ival) : Prop :=
  (block_pos s = {[0 := p0]} \/ block_pos s = T_w) /\ block_count s = bc0.

Definition blockres (j : Z) : res (list Z) := fst (block_read j sW).

Fixpoint items_loop (i n : nat) : list (Z * nat * text) * option exn :=
  match n with
  | O => ([], None)
  | S n' =>
      match blockres (Z.of_nat i) with
      | Err e => ([], Some e)
      | Ok buf =>
          let '(l, e) := read_entries_of decode buf in
          match e with
          | Some ex => (tag_items (Z.of_nat i) l, Some ex)
          | None =>
              let '(rest, e') := items_loop (S i) n' in
              (tag_items (Z.of_nat i) l ++ rest, e')
          end
      end
  end.

Definition entry_res (bo : BlockOffset) : res text :=
  match blockres (bo_block bo) with
  | Ok raw =>
      match entry_from_block decode (drop (bo_offset bo) raw) 0
              (repeat 0 (sizeof EntryHeader_fields)) with
      | Ok (t, _, _) => Ok t
      | Err e => Err e
      end
  | Err e => Err e
  end.

Lemma drop_repeat {A} (n m : nat) (x : A) : drop n (repeat x m) = repeat x (m - n).
Proof.
  revert m; induction n as [|n IH]; intros [|m]; simpl; auto; try apply IH.
Qed.

Lemma le32_bytes_le32 (v : Z) : 0 <= v < 2 ^ 32 -> le32 (le32_bytes v) 0 = v.
Proof.
  intros Hv. unfold le32, le32_bytes, byte_at; simpl.
  change 255 with (Z.ones 8).
  rewrite !Z.land_ones by lia. rewrite !Z.shiftr_div_pow2 by lia.
  change (2 ^ 16) with (2 ^ 8 * 2 ^ 8). change (2 ^ 24) with (2 ^ 8 * 2 ^ 8 * 2 ^ 8).
  rewrite <- !Z.div_div by lia.
  change (2 ^ 8) with 256.
  pose proof (Z.div_mod v 256 ltac:(lia)) as E1.
  pose proof (Z.div_mod (v / 256) 256 ltac:(lia)) as E2.
  pose proof (Z.div_mod (v / 256 / 256) 256 ltac:(lia)) as E3.
  pose proof (Z.mod_pos_bound v 256 ltac:(lia)).
  pose proof (Z.mod_pos_bound (v / 256) 256 ltac:(lia)).
  pose proof (Z.mod_pos_bound (v / 256 / 256) 256 ltac:(lia)).
  assert (0 <= v / 256 / 256 / 256 < 256).
  { split. - apply Z.div_pos; [apply Z.div_pos; [apply Z.div_pos|]|]; lia.
    - rewrite !Z.div_div by lia. apply Z.div_lt_upper_bound; lia. }
  rewrite (Z.mod_small (v / 256 / 256 / 256)) by lia.
  lia.
Qed.

Lemma buf_readinto_full (buf : list Z) (pos : nat) (prior : list Z) :
  (pos + length prior <= length buf)%nat ->
  buf_readinto buf pos prior = (take (length prior) (drop pos buf), (pos + length prior)%nat).
Proof.
  intros H. unfold buf_readinto.
  rewrite length_take, length_drop.
  assert (Hm : Init.Nat.min (length prior) (length buf - pos) = length prior) by lia.
  rewrite Hm, (drop_ge prior) by lia. rewrite app_nil_r. reflexivity.
Qed.

Lemma buf_readinto_short (buf : list Z) (pos : nat) (prior : list Z) :
  (pos <= length buf)%nat -> (length buf <= pos + length prior)%nat ->
  buf_readinto buf pos prior = (drop pos buf ++ drop (length buf - pos) prior, length buf).
Proof.
  intros H1 H2. unfold buf_readinto.
  rewrite (take_ge (drop pos buf)) by (rewrite length_drop; lia).
  rewrite length_drop. f_equal. lia.
Qed.

Lemma length_le32_bytes (v : Z) : length (le32_bytes v) = 4%nat.
Proof. reflexivity. Qed.

Lemma length_write_entry (raw : list Z) : length (write_entry raw) = (4 + length raw)%nat.
Proof. unfold write_entry. rewrite List.length_app, length_le32_bytes. reflexivity. Qed.

Lemma entry_length_write (raw : list Z) (rest : list Z) :
  Z.of_nat (length raw) < 2 ^ 32 ->
  entry_length (take 4 (le32_bytes (Z.of_nat (length raw)) ++ rest))
  = Z.of_nat (length raw).
Proof.
  intros H. rewrite take_app_length' by reflexivity.
  apply le32_bytes_le32. lia.
Qed.

Lemma entry_step (pre raw post : list Z) (t : text) (eh : list Z) :
  length eh = 4%nat -> Z.of_nat (length raw) < 2 ^ 32 -> decode raw = Some t ->
  entry_from_block decode (pre ++ write_entry raw ++ post) (length pre) eh
  = Ok (t, (length pre + 4 + length raw)%nat, le32_bytes (Z.of_nat (length raw))).
Proof.
  intros Heh Hlen Hdec. unfold entry_from_block, write_entry.
  rewrite <- app_assoc.
  rewrite (buf_readinto_full _ (length pre) eh)
    by (rewrite Heh, !List.length_app, length_le32_bytes; lia).
  rewrite Heh, drop_app_length.
  rewrite (take_app_length' _ _ 4%nat) by reflexivity.
  change (entry_length (le32_bytes (Z.of_nat (length raw))))
    with (le32 (le32_bytes (Z.of_nat (length raw))) 0).
  rewrite le32_bytes_le32 by lia. rewrite Nat2Z.id.
  rewrite (buf_readinto_full _ (length pre + 4) (repeat 0 (length raw)))
    by (rewrite repeat_length, !List.length_app, length_le32_bytes; lia).
  rewrite repeat_length.
  assert (Hd : drop (length pre + 4) (pre ++ le32_bytes (Z.of_nat (length raw)) ++ raw ++ post)
               = raw ++ post).
  { rewrite app_assoc. apply drop_app_length'.
    rewrite List.length_app, length_le32_bytes. reflexivity. }
  rewrite Hd, take_app_length, Hdec. reflexivity.
Qed.

Lemma read_entries_at_end (buf : list Z) (fuel : nat) (eh : list Z) :
  read_entries_loop decode fuel buf (length buf) eh = ([], None).
Proof. destruct fuel; simpl; [reflexivity|]. rewrite Nat.ltb_irrefl. reflexivity. Qed.

Lemma write_entries_cons (raw : list Z) (raws : list (list Z)) :
  write_entries (raw :: raws) = write_entry raw ++ write_entries raws.
Proof. reflexivity. Qed.

(** Framing a buffer made of written entries followed by [post]: the
    entries come out in order, each at the offset of its header, and the
    loop then goes on from the first byte of [post]. *)
Lemma frame_written (raws : list (list Z)) (ts : list text) :
  decodes raws ts ->
  forall (pre post : list Z) (L : list (nat * text)) (E : option exn),
  (forall fuel eh, length eh = 4%nat -> (length post <= fuel)%nat ->
     read_entries_loop decode fuel (pre ++ write_entries raws ++ post)
       (length pre + length (write_entries raws)) eh = (L, E)) ->
  forall fuel eh, length eh = 4%nat ->
  (length (write_entries raws) + length post <= fuel)%nat ->
  read_entries_loop decode fuel (pre ++ write_entries raws ++ post) (length pre) eh
  = (combine (entry_offsets (length pre) raws) ts ++ L, E).
Proof.
  induction 1 as [|raw t raws ts [Hdec Hlen] Hrest IH];
    intros pre post L E Htail fuel eh Heh Hfuel.
  - change (write_entries []) with (@nil Z) in *.
    simpl in Hfuel, Htail. rewrite Nat.add_0_r in Htail.
    apply Htail; [exact Heh | lia].
  - rewrite write_entries_cons in *.
    rewrite List.length_app, length_write_entry in Hfuel, Htail.
    destruct fuel as [|fuel]; [lia|].
    cbn [read_entries_loop].
    rewrite (proj2 (Nat.ltb_lt _ _))
      by (rewrite !List.length_app, length_write_entry; lia).
    rewrite <- (app_assoc (write_entry raw)).
    rewrite (entry_step pre raw _ t eh Heh Hlen Hdec).
    assert (Hp : length (pre ++ write_entry raw) = (length pre + 4 + length raw)%nat)
      by (rewrite List.length_app, length_write_entry; lia).
    rewrite app_assoc, <- Hp.
    rewrite (IH (pre ++ write_entry raw) post L E).
    + rewrite Hp. reflexivity.
    + intros fuel' eh' Heh' Hfuel'.
      rewrite <- app_assoc, Hp.
      rewrite <- app_assoc in Htail.
      replace (length pre + 4 + length raw + length (write_entries raws))%nat
        with (length pre + (4 + length raw + length (write_entries raws)))%nat by lia.
      apply Htail; assumption.
    + reflexivity.
    + lia.
Qed.

Lemma frame_from_start (raws : list (list Z)) (ts : list text) (post : list Z)
  (L : list (nat * text)) (E : option exn) :
  decodes raws ts ->
  (forall fuel eh, length eh = 4%nat -> (length post <= fuel)%nat ->
     read_entries_loop decode fuel (write_entries raws ++ post)
       (length (write_entries raws)) eh = (L, E)) ->
  read_entries_of decode (write_entries raws ++ post)
  = (combine (entry_offsets 0 raws) ts ++ L, E).
Proof.
  intros Hd Htail. unfold read_entries_of.
  apply (frame_written raws ts Hd [] post L E); [exact Htail | reflexivity |].
  rewrite List.length_app; lia.
Qed.

(** A last entry header announcing [n] bytes when only [rest] is left. *)
Lemma truncated_step (pre rest : list Z) (n : nat) (fuel : nat) (eh : list Z) :
  length eh = 4%nat -> (length rest < n)%nat -> Z.of_nat n < 2 ^ 32 ->
  (4 + length rest <= fuel)%nat ->
  read_entries_loop decode fuel (pre ++ le32_bytes (Z.of_nat n) ++ rest) (length pre) eh
  = match decode (rest ++ repeat 0 (n - length rest)) with
    | Some t => ([(length pre, t)], None)
    | None => ([], Some UnicodeDecodeError)
    end.
Proof.
  intros Heh Hr Hn Hf.
  destruct fuel as [|fuel]; [lia|].
  cbn [read_entries_loop].
  rewrite (proj2 (Nat.ltb_lt _ _))
    by (rewrite !List.length_app, length_le32_bytes; lia).
  unfold entry_from_block.
  rewrite (buf_readinto_full _ (length pre) eh)
    by (rewrite Heh, !List.length_app, length_le32_bytes; lia).
  rewrite Heh, drop_app_length.
  rewrite (take_app_length' _ _ 4%nat) by reflexivity.
  change (entry_length (le32_bytes (Z.of_nat n))) with (le32 (le32_bytes (Z.of_nat n)) 0).
  rewrite le32_bytes_le32 by lia. rewrite Nat2Z.id.
  rewrite buf_readinto_short
    by (rewrite ?repeat_length, !List.length_app, length_le32_bytes; lia).
  assert (Hd : drop (length pre + 4) (pre ++ le32_bytes (Z.of_nat n) ++ rest) = rest).
  { rewrite app_assoc. apply drop_app_length'.
    rewrite List.length_app, length_le32_bytes. reflexivity. }
  rewrite Hd.
  replace (length (pre ++ le32_bytes (Z.of_nat n) ++ rest) - (length pre + 4))%nat
    with (length rest)
    by (rewrite !List.length_app, length_le32_bytes; lia).
  rewrite drop_repeat.
  destruct (decode (rest ++ repeat 0 (n - length rest))) as [t|]; [|reflexivity].
  rewrite read_entries_at_end. reflexivity.
Qed.

#[local] Instance same_ic_pre : PreOrder same_ic.
Proof.
  split; [intros s; repeat split|].
  intros s1 s2 s3 (A1 & B1 & C1) (A2 & B2 & C2); repeat split; congruence.
Qed.

#[local] Instance same_fix_pre : PreOrder same_fix.
Proof.
  split; [intros s; split; [reflexivity|reflexivity]|].
  intros s1 s2 s3 [A1 B1] [A2 B2]; split; [etransitivity; eauto|congruence].
Qed.

#[local] Instance same_at_pre k : PreOrder (same_at k).
Proof. split; [intros s; reflexivity|intros s1 s2 s3 A B; unfold same_at in *; congruence]. Qed.

#[local] Instance has_index_pre : PreOrder has_index.
Proof. split; [intros s H; exact H|intros a b c H1 H2 H; auto]. Qed.

Lemma resp_bind {A B} (m : M A) (k : A -> M B) :
  resp m -> (forall a, resp (k a)) -> resp (bind m k).
Proof.
  intros Hm Hk s1 s2 H. pose proof (Hm s1 s2 H) as Hm'. revert Hm'. unfold bind.
  destruct (m s1) as [[a1|e1] t1], (m s2) as [[a2|e2] t2]; simpl;
    intros [E1 E2]; try discriminate.
  - injection E1 as <-. apply Hk; exact E2.
  - injection E1 as <-. auto.
Qed.

Lemma resp_ret {A} (a : A) : resp (ret a).
Proof. intros s1 s2 H; split; [reflexivity|exact H]. Qed.

Lemma resp_raise {A} e : resp (A:=A) (raise e).
Proof. intros s1 s2 H; split; [reflexivity|exact H]. Qed.

Lemma keeps_bind {A B} R `{!PreOrder R} (m : M A) (k : A -> M B) :
  keeps R m -> (forall a, keeps R (k a)) -> keeps R (bind m k).
Proof.
  intros Hm Hk s. pose proof (Hm s) as Hm'. revert Hm'. unfold bind.
  destruct (m s) as [[a|e] t]; simpl; intros H; [|exact H].
  etransitivity; [exact H|apply Hk].
Qed.

Lemma keeps_ret {A} R `{!PreOrder R} (a : A) : keeps R (ret a).
Proof. intros s; reflexivity. Qed.

Lemma keeps_raise {A} R `{!PreOrder R} e : keeps (A:=A) R (raise e).
Proof. intros s; reflexivity. Qed.

Lemma resp_f_readinto prior : resp (f_readinto file prior).
Proof.
  intros s1 s2 (Hp & Hb & Hc). unfold f_readinto; simpl. rewrite Hp.
  split; [reflexivity|]. repeat split; simpl; auto.
Qed.

Lemma resp_f_seek p : resp (f_seek (Ival:=Ival) p).
Proof.
  intros s1 s2 (Hp & Hb & Hc). unfold f_seek.
  destruct (p <? 0); simpl; repeat split; auto.
Qed.

Lemma resp_f_tell : resp (f_tell (Ival:=Ival)).
Proof. intros s1 s2 (Hp & Hb & Hc). unfold f_tell; simpl. rewrite Hp. repeat split; auto. Qed.

Lemma fix_f_readinto prior : keeps same_fix (f_readinto file prior).
Proof. intros s. repeat split. Qed.

Lemma fix_f_seek p : keeps same_fix (f_seek (Ival:=Ival) p).
Proof. intros s. unfold f_seek. destruct (p <? 0); repeat split. Qed.

Lemma fix_f_tell : keeps same_fix (f_tell (Ival:=Ival)).
Proof. intros s. repeat split. Qed.

Lemma at_fix k {A} (m : M A) : keeps same_fix m -> keeps (same_at k) m.
Proof. intros H s. unfold same_at. rewrite (proj2 (H s)). reflexivity. Qed.

Lemma ic_fix {A} (m : M A) : keeps same_fix m -> keeps same_ic m.
Proof. intros H s. exact (proj1 (H s)). Qed.

Lemma resp_read_block_header_here : resp (read_block_header_here (Ival:=Ival) file).
Proof.
  unfold read_block_header_here.
  apply resp_bind; [apply resp_f_readinto|intros bs].
  apply resp_bind; [apply resp_f_tell|intros p].
  destruct (_ <? _); [apply resp_raise|apply resp_ret].
Qed.

Lemma fix_read_block_header_here : keeps same_fix (read_block_header_here (Ival:=Ival) file).
Proof.
  unfold read_block_header_here.
  apply keeps_bind; [typeclasses eauto|apply fix_f_readinto|intros bs].
  apply keeps_bind; [typeclasses eauto|apply fix_f_tell|intros p].
  destruct (_ <? _); [apply keeps_raise|apply keeps_ret]; typeclasses eauto.
Qed.

Lemma resp_read_raw_entry_block h : resp (read_raw_entry_block (Ival:=Ival) file decompress h).
Proof.
  unfold read_raw_entry_block.
  apply resp_bind; [apply resp_f_readinto|intros buf].
  destruct (decompress buf) as [b|]; [|apply resp_raise].
  destruct (negb _); [apply resp_raise|apply resp_ret].
Qed.

Lemma fix_read_raw_entry_block h : keeps same_fix (read_raw_entry_block (Ival:=Ival) file decompress h).
Proof.
  unfold read_raw_entry_block.
  apply keeps_bind; [typeclasses eauto|apply fix_f_readinto|intros buf].
  destruct (decompress buf) as [b|]; [|apply keeps_raise; typeclasses eauto].
  destruct (negb _); [apply keeps_raise|apply keeps_ret]; typeclasses eauto.
Qed.

Lemma resp_block_tail : resp block_tail.
Proof.
  unfold block_tail. apply resp_bind; [apply resp_read_block_header_here|].
  intros [h nb]. apply resp_read_raw_entry_block.
Qed.

Lemma fix_block_tail : keeps same_fix block_tail.
Proof.
  unfold block_tail. apply keeps_bind; [typeclasses eauto|apply fix_read_block_header_here|].
  intros [h nb]. apply fix_read_raw_entry_block.
Qed.

Lemma resp_find_blocks_loop n i : resp (find_blocks_loop (Ival:=Ival) file i n).
Proof.
  revert i; induction n as [|n IH]; intros i; simpl; [apply resp_ret|].
  apply resp_bind; [apply resp_f_tell|intros p].
  apply resp_bind.
  { intros s1 s2 (Hp & Hb & Hc). unfold modify; simpl. rewrite Hb. repeat split; auto. }
  intros _. apply resp_bind; [apply resp_read_block_header_here|intros [h nb]].
  apply resp_bind; [apply resp_f_seek|intros _]. apply IH.
Qed.

Lemma ic_find_blocks_loop n i : keeps same_ic (find_blocks_loop (Ival:=Ival) file i n).
Proof.
  revert i; induction n as [|n IH]; intros i; simpl; [apply keeps_ret; typeclasses eauto|].
  apply keeps_bind; [typeclasses eauto|apply ic_fix, fix_f_tell|intros p].
  apply keeps_bind; [typeclasses eauto| |].
  { intros s. repeat split. }
  intros _. apply keeps_bind; [typeclasses eauto|apply ic_fix, fix_read_block_header_here|intros [h nb]].
  apply keeps_bind; [typeclasses eauto|apply ic_fix, fix_f_seek|intros _]. apply IH.
Qed.

Lemma at_find_blocks_loop n i k : k < Z.of_nat i ->
  keeps (same_at k) (find_blocks_loop (Ival:=Ival) file i n).
Proof.
  revert i; induction n as [|n IH]; intros i Hk; simpl; [apply keeps_ret; typeclasses eauto|].
  apply keeps_bind; [typeclasses eauto|apply at_fix, fix_f_tell|intros p].
  apply keeps_bind; [typeclasses eauto| |].
  { intros s. unfold same_at, modify; simpl. rewrite lookup_insert_ne by lia. reflexivity. }
  intros _. apply keeps_bind; [typeclasses eauto|apply at_fix, fix_read_block_header_here|intros [h nb]].
  apply keeps_bind; [typeclasses eauto|apply at_fix, fix_f_seek|intros _]. apply IH. lia.
Qed.

Lemma find_blocks_loop_first n i (s : st Ival) :
  block_pos (snd (find_blocks_loop file i (S n) s)) !! Z.of_nat i = Some (f_pos s).
Proof.
  cbn [find_blocks_loop]. unfold bind at 1. unfold f_tell at 1. cbv beta iota.
  unfold bind at 1. unfold modify at 1. cbv beta iota.
  set (s1 := set_block_pos s (<[Z.of_nat i:=f_pos s]> (block_pos s))).
  assert (H1 : block_pos s1 !! Z.of_nat i = Some (f_pos s)) by (apply lookup_insert_eq).
  assert (Hk : keeps (same_at (Z.of_nat i))
     (let* '(_, nb) := read_block_header_here file in
      let* _ := f_seek nb in find_blocks_loop file (S i) n)).
  { apply keeps_bind; [typeclasses eauto|apply at_fix, fix_read_block_header_here|intros [h nb]].
    apply keeps_bind; [typeclasses eauto|apply at_fix, fix_f_seek|intros _].
    apply at_find_blocks_loop. lia. }
  specialize (Hk s1). unfold same_at in Hk. rewrite Hk. exact H1.
Qed.

Lemma find_blocks_single (s : st Ival) (q : Z) :
  block_pos s = {[0 := q]} ->
  find_blocks file s = bind (f_seek q) (fun _ => find_blocks_loop file 0 (Z.to_nat (block_count s))) s.
Proof.
  intros Hb. unfold find_blocks. unfold bind at 1, get. cbv beta iota.
  rewrite Hb. change (map_size ({[0 := q]} : gmap Z Z)) with (size ({[0 := q]} : gmap Z Z)).
  rewrite map_size_singleton. change (1 <? Z.of_nat 1) with false. cbv iota.
  rewrite lookup_singleton_eq. reflexivity.
Qed.

Lemma find_blocks_many (s : st Ival) :
  (1 <? Z.of_nat (map_size (block_pos s))) = true -> find_blocks file s = (Ok tt, s).
Proof. intros H. unfold find_blocks, bind, get. cbv beta iota. rewrite H. reflexivity. Qed.

Lemma singleton_of_size (m : gmap Z Z) (k v : Z) :
  m !! k = Some v -> (size m <= 1)%nat -> m = {[k := v]}.
Proof.
  intros H Hs.
  assert (Hd : delete k m = ∅).
  { apply map_size_empty_inv. rewrite map_size_delete_Some by eauto. lia. }
  rewrite <- (insert_id m k v H), <- insert_delete_eq, Hd. apply insert_empty.
Qed.

Lemma ic_find_blocks : keeps same_ic (find_blocks (Ival:=Ival) file).
Proof.
  intros s. unfold find_blocks. unfold bind at 1, get. cbv beta iota.
  destruct (1 <? _); [reflexivity|].
  destruct (block_pos s !! 0) as [p0|]; [|reflexivity].
  apply keeps_bind; [typeclasses eauto|apply ic_fix, fix_f_seek|intros _].
  apply ic_find_blocks_loop.
Qed.

Lemma set_index_same (s : st Ival) : set_index s (index s) = s.
Proof. destruct s; reflexivity. Qed.

Lemma gfold_app {A} g (l1 l2 : list (Z * nat * text)) (a : A) u :
  gfold g (l1 ++ l2) a u = match gfold g l1 a u with
                           | (Ok a', u') => gfold g l2 a' u'
                           | (Err e, u') => (Err e, u')
                           end.
Proof.
  revert a u; induction l1 as [|it l1 IH]; intros a u; simpl; [reflexivity|].
  destruct (g a it u) as [[a'|e] u']; [apply IH|reflexivity].
Qed.

Lemma scan_result_cons {A} g it its e (a : A) u :
  scan_result g (it :: its, e) a u = match g a it u with
                                     | (Ok a', u') => scan_result g (its, e) a' u'
                                     | (Err x, u') => (Err x, u')
                                     end.
Proof. unfold scan_result; simpl. destruct (g a it u) as [[a'|x] u']; reflexivity. Qed.

Lemma feed_spec {A} g (body : A -> Z * nat * text -> M A) (Hb : body_by g body)
  (j : Z) (l : list (nat * text)) (e : option exn) (a : A) (s : st Ival) :
  feed body j l e a s
  = (fst (scan_result g (tag_items j l, e) a (index s)),
     set_index s (snd (scan_result g (tag_items j l, e) a (index s)))).
Proof.
  revert a s; induction l as [|[p t] l IH]; intros a s.
  - unfold scan_result; simpl. rewrite set_index_same.
    destruct e; reflexivity.
  - change (tag_items j ((p, t) :: l)) with ((j, p, t) :: tag_items j l).
    rewrite scan_result_cons. cbn [feed]. unfold bind. rewrite Hb.
    destruct (g a (j, p, t) (index s)) as [[a'|x] u1]; simpl.
    + rewrite IH. reflexivity.
    + reflexivity.
Qed.

Lemma read_all_entries_loop_step {A} (body : A -> Z * nat * text -> M A) i n a (s : st Ival) :
  read_all_entries_loop file decompress decode body i (S n) a s
  = match block_read (Z.of_nat i) s with
    | (Ok buf, s1) =>
        match read_entries_of decode buf with
        | (l, e) =>
            bind (feed body (Z.of_nat i) l e a)
              (fun a' => read_all_entries_loop file decompress decode body (S i) n a') s1
        end
    | (Err e, s1) => (Err e, s1)
    end.
Proof.
  cbn [read_all_entries_loop]. unfold block_read, bind.
  destruct (read_block_header file (Some (Z.of_nat i)) s) as [[[h nb]|e] s1]; [|reflexivity].
  destruct (read_raw_entry_block file decompress h s1) as [[buf|e] s2]; [|reflexivity].
  destruct (read_entries_of decode buf); reflexivity.
Qed.

Lemma buf_readinto_shift (buf : list Z) (o p : nat) (prior : list Z) :
  buf_readinto buf (o + p) prior
  = (fst (buf_readinto (drop o buf) p prior), (o + snd (buf_readinto (drop o buf) p prior))%nat).
Proof. unfold buf_readinto. simpl. rewrite drop_drop. f_equal. lia. Qed.

Lemma entry_from_block_shift (buf : list Z) (o p : nat) (eh : list Z) :
  entry_from_block decode buf (o + p) eh
  = match entry_from_block decode (drop o buf) p eh with
    | Ok (t, q, e) => Ok (t, (o + q)%nat, e)
    | Err x => Err x
    end.
Proof.
  unfold entry_from_block. rewrite buf_readinto_shift.
  destruct (buf_readinto (drop o buf) p eh) as [eh1 p1]. cbn [fst snd].
  rewrite buf_readinto_shift.
  destruct (buf_readinto (drop o buf) p1 _) as [raw p2]. cbn [fst snd].
  destruct (decode raw); reflexivity.
Qed.

Lemma length_buf_readinto (buf : list Z) (pos : nat) (prior : list Z) :
  length (fst (buf_readinto buf pos prior)) = length prior.
Proof. unfold buf_readinto; simpl. rewrite List.length_app, length_drop, length_take. lia. Qed.

Lemma entry_from_block_header (buf : list Z) (pos : nat) (eh : list Z) t q e :
  entry_from_block decode buf pos eh = Ok (t, q, e) -> length e = length eh.
Proof.
  unfold entry_from_block.
  destruct (buf_readinto buf pos eh) as [eh1 p1] eqn:H1.
  destruct (buf_readinto buf p1 _) as [raw p2].
  destruct (decode raw); intros E; inversion E; subst.
  rewrite <- (length_buf_readinto buf pos eh), H1. reflexivity.
Qed.

Lemma entry_from_block_any_header (b : list Z) (eh eh' : list Z) :
  length eh = 4%nat -> length eh' = 4%nat -> (4 <= length b)%nat ->
  entry_from_block decode b 0 eh = entry_from_block decode b 0 eh'.
Proof.
  intros H1 H2 H3. unfold entry_from_block.
  rewrite !(buf_readinto_full b 0) by lia. rewrite H1, H2. reflexivity.
Qed.

Lemma entry_from_block_at_end (buf : list Z) (o : nat) (eh : list Z) t q e :
  (o <= length buf)%nat -> (length buf <= o + length eh)%nat ->
  entry_from_block decode buf o eh = Ok (t, q, e) ->
  exists n, decode (repeat 0 n) = Some t.
Proof.
  intros H1 H2. unfold entry_from_block.
  rewrite buf_readinto_short by assumption.
  unfold buf_readinto. rewrite drop_all, take_nil, app_nil_l, drop_0. simpl.
  destruct (decode (repeat 0 _)) as [t'|] eqn:Hd; intros E; inversion E; subst.
  eauto.
Qed.

(** Every entry yielded by the framing loop is the entry framed afresh at
    its offset, unless fewer than four bytes were left for its header, in
    which case its text decodes from zero bytes. *)
Lemma read_entries_loop_entry (fuel : nat) (buf : list Z) (pos : nat) (eh : list Z)
  (o : nat) (t : text) :
  length eh = 4%nat ->
  In (o, t) (fst (read_entries_loop decode fuel buf pos eh)) ->
  (exists q e, entry_from_block decode (drop o buf) 0 (repeat 0 (sizeof EntryHeader_fields))
               = Ok (t, q, e))
  \/ (exists n, decode (repeat 0 n) = Some t).
Proof.
  revert pos eh; induction fuel as [|fuel IH]; intros pos eh Heh; simpl; [tauto|].
  destruct (pos <? length buf)%nat eqn:Hlt; [|simpl; tauto].
  apply Nat.ltb_lt in Hlt.
  destruct (entry_from_block decode buf pos eh) as [[[t1 p1] e1]|x] eqn:Hefb; [|simpl; tauto].
  destruct (read_entries_loop decode fuel buf p1 e1) as [l e] eqn:Hl. simpl.
  intros [Eq|Hin].
  - injection Eq as <- <-.
    destruct (Nat.le_gt_cases (pos + 4) (length buf)) as [Hle|Hgt].
    + left. rewrite <- (Nat.add_0_r pos), entry_from_block_shift in Hefb.
      rewrite (entry_from_block_any_header (drop pos buf) eh (repeat 0 4)) in Hefb
        by (rewrite ?repeat_length, ?length_drop; lia).
      change (repeat 0 4) with [0; 0; 0; 0] in Hefb.
      destruct (entry_from_block decode (drop pos buf) 0 [0; 0; 0; 0]) as [[[t2 q2] e2]|x];
        inversion Hefb; subst; eauto.
    + right. apply (entry_from_block_at_end buf pos eh t1 p1 e1); [lia|lia|exact Hefb].
  - apply (IH p1 e1).
    + rewrite (entry_from_block_header buf pos eh t1 p1 e1 Hefb). exact Heh.
    + rewrite Hl. exact Hin.
Qed.

Lemma body_by_index (tag : text) : body_by (g_index tag) (build_index_body tag).
Proof.
  intros a it s. unfold build_index_body, g_index.
  destruct (index s) as [idx|] eqn:Hi.
  - destruct (index_step tag idx it) as [idx'|e]; [reflexivity|].
    simpl. rewrite <- Hi, set_index_same. reflexivity.
  - simpl. rewrite <- Hi, set_index_same. reflexivity.
Qed.

Lemma body_by_collect : body_by g_collect (fun acc it => ret (acc ++ [it])).
Proof. intros a it s. unfold ret, g_collect. simpl. rewrite set_index_same. reflexivity. Qed.

Lemma gfold_collect its acc u : gfold g_collect its acc u = (Ok (acc ++ its), u).
Proof.
  revert acc; induction its as [|it its IH]; intros acc; simpl.
  - rewrite app_nil_r. reflexivity.
  - rewrite IH, <- app_assoc. reflexivity.
Qed.

Lemma index_step_title (tag : text) idx b o t :
  index_step tag idx (b, o, t)
  = match entry_title tag t with
    | Err e => Err e
    | Ok title =>
        match title with
        | [] => Ok idx
        | _ => Ok (<[title := default [] (idx !! title) ++ [BO b o]]> idx)
        end
    end.
Proof.
  unfold index_step, entry_title.
  destruct (str_index t tag); [|reflexivity].
  destruct (str_index _ [34]); reflexivity.
Qed.

(** The index after a successful pass: each non-empty title maps to the
    offsets of the entries carrying it, in scan order, after those it had. *)
Lemma gfold_index (tag : text) (its : list (Z * nat * text)) (idx0 : gmap text (list BlockOffset)) u :
  gfold (g_index tag) its tt (Some idx0) = (Ok tt, u) ->
  exists idx, u = Some idx
  /\ (forall it, In it its -> exists title, entry_title tag (it_text it) = Ok title)
  /\ idx !! [] = idx0 !! []
  /\ (forall title, title <> [] ->
      default [] (idx !! title)
      = default [] (idx0 !! title) ++ map it_bo (List.filter (title_is tag title) its)).
Proof.
  revert idx0; induction its as [|[[b o] t] its IH]; intros idx0 H.
  - simpl in H. injection H as <-. exists idx0.
    split; [reflexivity|]. split; [intros it []|]. split; [reflexivity|].
    intros title _. simpl. rewrite app_nil_r. reflexivity.
  - cbn [gfold] in H. unfold g_index at 1 in H. rewrite index_step_title in H.
    destruct (entry_title tag t) as [title1|e] eqn:Ht; [|discriminate].
    set (idx1 := match title1 with
                 | [] => idx0
                 | _ => <[title1 := default [] (idx0 !! title1) ++ [BO b o]]> idx0
                 end) in H.
    assert (H' : gfold (g_index tag) its tt (Some idx1) = (Ok tt, u))
      by (subst idx1; destruct title1; exact H).
    destruct (IH idx1 H') as (idx & -> & Hall & Hnil & Hti).
    exists idx. split; [reflexivity|]. split.
    { intros it [<-|Hin]; [exists title1; exact Ht|apply Hall; exact Hin]. }
    split.
    { rewrite Hnil. subst idx1. destruct title1 as [|x xs]; [reflexivity|].
      rewrite lookup_insert_ne by discriminate. reflexivity. }
    intros title Hne. rewrite Hti by exact Hne.
    cbn [List.filter].
    replace (title_is tag title (b, o, t)) with (bool_decide (title1 = title))
      by (unfold title_is; cbn [it_text snd]; rewrite Ht; reflexivity).
    subst idx1. destruct title1 as [|x xs].
    + rewrite bool_decide_eq_false_2 by congruence. reflexivity.
    + destruct (bool_decide_reflect (x :: xs = title)) as [<-|Hn].
      * rewrite lookup_insert_eq. simpl. rewrite <- app_assoc. reflexivity.
      * rewrite lookup_insert_ne by exact Hn. reflexivity.
Qed.

Lemma is_prefix_in (p t : text) : is_prefix p t = true -> forall x, In x p -> In x t.
Proof.
  revert t; induction p as [|y p IH]; intros t H x Hx; [destruct Hx|].
  destruct t as [|z t]; [discriminate|]. simpl in H.
  apply andb_prop in H as [H1 H2]. apply Z.eqb_eq in H1. subst z.
  destruct Hx as [<-|Hx]; [left; reflexivity|right; apply (IH t H2 x Hx)].
Qed.

Lemma str_index_from_in (t sub : text) k r :
  str_index_from t sub k = Some r -> forall x, In x sub -> In x t.
Proof.
  revert k; induction t as [|y t IH]; intros k H x Hx; simpl in H.
  - destruct (is_prefix sub []) eqn:Hp; [|discriminate].
    exact (is_prefix_in sub [] Hp x Hx).
  - destruct (is_prefix sub (y :: t)) eqn:Hp.
    + exact (is_prefix_in sub (y :: t) Hp x Hx).
    + right. exact (IH (S k) H x Hx).
Qed.

Lemma entry_title_quote (title_tag t title : text) :
  entry_title (title_tag ++ [61; 34]) t = Ok title -> In 34 t.
Proof.
  unfold entry_title, str_index.
  destruct (str_index_from t (title_tag ++ [61; 34]) 0) as [k|] eqn:H; [|discriminate].
  intros _. apply (str_index_from_in t _ 0 k H).
  apply in_or_app. right. right. left. reflexivity.
Qed.

Section Ready.
Hypothesis Hbp0 : block_pos s0 = {[0 := f_pos s0]}.
Hypothesis HW : fst (find_blocks file s0) = Ok tt.

Lemma find_blocks_like_s0 (s : st Ival) :
  block_pos s = {[0 := p0]} -> block_count s = bc0 ->
  fst (find_blocks file s) = Ok tt /\ eqv (snd (find_blocks file s)) sW.
Proof.
  intros Hb Hc. pose proof HW as HW'.
  rewrite (find_blocks_single s (f_pos s0) Hb). rewrite (find_blocks_single s0 p0 Hbp0) in *.
  revert HW'. unfold bind, f_seek.
  destruct (p0 <? 0); [discriminate|]. intros HW'.
  rewrite Hc. fold bc0.
  destruct (resp_find_blocks_loop (Z.to_nat bc0) 0
             (set_file s p0 (reads s)) (set_file s0 p0 (reads s0))) as [E1 E2].
  { repeat split; simpl; congruence. }
  split; [congruence|exact E2].
Qed.

Lemma T_w_first : T_w !! 0 = Some p0.
Proof.
  pose proof HW as HW'.
  rewrite (find_blocks_single s0 p0 Hbp0) in *.
  revert HW'. unfold bind, f_seek.
  destruct (p0 <? 0); [discriminate|]. intros _.
  destruct (Z.to_nat (block_count s0)) as [|n].
  - simpl. rewrite Hbp0. apply lookup_singleton_eq.
  - exact (find_blocks_loop_first n 0 (set_file s0 p0 (reads s0))).
Qed.

Lemma find_blocks_pre_ready (s : st Ival) :
  pre_ready s ->
  fst (find_blocks file s) = Ok tt /\ ready (snd (find_blocks file s))
  /\ same_ic s (snd (find_blocks file s)).
Proof.
  intros [Hb Hc].
  assert (Hic := ic_find_blocks s).
  assert (Hsingle : block_pos s = {[0 := p0]} ->
            fst (find_blocks file s) = Ok tt /\ ready (snd (find_blocks file s))).
  { intros Hb0. destruct (find_blocks_like_s0 s Hb0 Hc) as [E (_ & E2 & E3)].
    split; [exact E|]. split; [exact E2|]. rewrite E3. exact (proj2 (proj2 (ic_find_blocks s0))). }
  destruct Hb as [Hb|Hb]; [destruct (Hsingle Hb); tauto|].
  destruct (1 <? Z.of_nat (map_size T_w)) eqn:Hsz.
  - rewrite <- Hb in Hsz. rewrite (find_blocks_many s Hsz).
    split; [reflexivity|]. split; [split; assumption|reflexivity].
  - assert (HT : T_w = {[0 := p0]}).
    { apply singleton_of_size; [apply T_w_first|].
      change (map_size T_w) with (size T_w) in Hsz. apply Z.ltb_ge in Hsz. lia. }
    rewrite HT in Hb. destruct (Hsingle Hb); tauto.
Qed.

Lemma sW_ready : ready sW.
Proof.
  destruct (find_blocks_pre_ready s0) as (_ & R & _); [|exact R].
  split; [left; exact Hbp0|reflexivity].
Qed.

Lemma ready_pre (s : st Ival) : ready s -> pre_ready s.
Proof. intros [A B]; split; [right|]; assumption. Qed.

Lemma seek_block_pre_ready (s : st Ival) (j : Z) :
  pre_ready s ->
  ready (snd (seek_block file j s)) /\ same_ic s (snd (seek_block file j s))
  /\ match T_w !! j with
     | None => fst (seek_block file j s) = Err KeyError
     | Some p =>
         if p <? 0 then fst (seek_block file j s) = Err OSError
         else fst (seek_block file j s) = Ok tt /\ f_pos (snd (seek_block file j s)) = p
     end.
Proof.
  intros Hs. pose proof (find_blocks_pre_ready s Hs) as (E & R & I).
  unfold seek_block, bind, get. revert E R I.
  destruct (find_blocks file s) as [r s1]; simpl; intros -> [Rb Rc] I.
  rewrite Rb. destruct (T_w !! j) as [p|].
  - unfold f_seek. destruct (p <? 0); simpl; repeat split; assumption || apply I.
  - simpl. repeat split; assumption || apply I.
Qed.

Lemma block_read_run (j : Z) (s : st Ival) :
  block_read j s = match seek_block file j s with
                   | (Ok _, s1) => block_tail s1
                   | (Err e, s1) => (Err e, s1)
                   end.
Proof.
  unfold block_read, block_tail, read_block_header, bind. cbv beta iota.
  destruct (seek_block file j s) as [[[]|e] s1]; [|reflexivity].
  destruct (read_block_header_here file s1) as [[[h nb]|e] s2]; reflexivity.
Qed.

Lemma block_read_pre_ready (s : st Ival) (j : Z) :
  pre_ready s ->
  fst (block_read j s) = fst (block_read j sW) /\ ready (snd (block_read j s))
  /\ same_ic s (snd (block_read j s)).
Proof.
  intros Hs. rewrite !block_read_run.
  pose proof (seek_block_pre_ready s j Hs) as (R1 & I1 & E1).
  pose proof (seek_block_pre_ready sW j (ready_pre _ sW_ready)) as (R2 & I2 & E2).
  revert R1 I1 E1 R2 I2 E2.
  destruct (seek_block file j s) as [r1 s1], (seek_block file j sW) as [r2 s2]. simpl.
  intros R1 I1 E1 R2 I2 E2.
  destruct (T_w !! j) as [p|]; [destruct (p <? 0)|].
  - subst r1 r2. simpl. split; [reflexivity|split; assumption].
  - destruct E1 as [-> P1], E2 as [-> P2].
    destruct (resp_block_tail s1 s2) as [F1 F2].
    { destruct R1 as [B1 C1], R2 as [B2 C2]. repeat split; congruence. }
    destruct (fix_block_tail s1) as [J1 K1].
    split; [exact F1|]. split.
    + destruct R1 as [B1 C1]. split; [congruence|]. rewrite (proj2 (proj2 J1)). exact C1.
    + etransitivity; [exact I1|exact J1].
  - subst r1 r2. simpl. split; [reflexivity|split; assumption].
Qed.

Lemma pre_ready_set_index (s : st Ival) u : pre_ready s -> pre_ready (set_index s u).
Proof. intros H; exact H. Qed.

Lemma scan_spec {A} g (body : A -> Z * nat * text -> M A) (Hb : body_by g body)
  (n i : nat) (a : A) (s : st Ival) :
  pre_ready s ->
  pre_ready (snd (read_all_entries_loop file decompress decode body i n a s))
  /\ cache (snd (read_all_entries_loop file decompress decode body i n a s)) = cache s
  /\ (fst (read_all_entries_loop file decompress decode body i n a s),
      index (snd (read_all_entries_loop file decompress decode body i n a s)))
     = scan_result g (items_loop i n) a (index s).
Proof.
  revert i a s; induction n as [|n IH]; intros i a s Hs.
  - simpl. split; [exact Hs|]. split; reflexivity.
  - rewrite read_all_entries_loop_step. cbn [items_loop]. unfold blockres.
    pose proof (block_read_pre_ready s (Z.of_nat i) Hs) as (E & R & I).
    revert E R I. destruct (block_read (Z.of_nat i) s) as [r1 s1]. simpl.
    intros <- R (I1 & I2 & I3).
    destruct r1 as [buf|x].
    + destruct (read_entries_of decode buf) as [l e].
      destruct (items_loop (S i) n) as [rest e'] eqn:Hil.
      unfold bind. rewrite (feed_spec g body Hb). rewrite I1.
      destruct e as [ex|].
      * unfold scan_result; simpl.
        destruct (gfold g (tag_items (Z.of_nat i) l) a (index s)) as [[a'|x] u2]; simpl;
          (split; [apply pre_ready_set_index, ready_pre; exact R|]);
          (split; [exact I2|reflexivity]).
      * replace (scan_result g (tag_items (Z.of_nat i) l, None) a (index s))
          with (gfold g (tag_items (Z.of_nat i) l) a (index s))
          by (unfold scan_result; simpl; destruct (gfold _ _ _ _) as [[]]; reflexivity).
        destruct (gfold g (tag_items (Z.of_nat i) l) a (index s)) as [[a'|x] u2] eqn:Hg.
        -- simpl.
           destruct (IH (S i) a' (set_index s1 u2)) as (P1 & P2 & P3).
           { apply pre_ready_set_index, ready_pre; exact R. }
           split; [exact P1|]. split; [rewrite P2; exact I2|].
           rewrite P3, Hil. unfold scan_result; simpl. rewrite gfold_app, Hg. reflexivity.
        -- simpl. split; [apply pre_ready_set_index, ready_pre; exact R|].
           split; [exact I2|]. unfold scan_result; simpl. rewrite gfold_app, Hg. reflexivity.
    + simpl. split; [apply ready_pre; exact R|]. split; [exact I2|].
      rewrite I1. reflexivity.
Qed.

Lemma items_loop_entry (n i : nat) (its : list (Z * nat * text)) :
  items_loop i n = (its, None) ->
  forall b o t, In (b, o, t) its ->
  exists raw, blockres b = Ok raw /\ In (o, t) (fst (read_entries_of decode raw)).
Proof.
  revert i its; induction n as [|n IH]; intros i its H b o t Hin; simpl in H.
  - injection H as <-. destruct Hin.
  - destruct (blockres (Z.of_nat i)) as [buf|x] eqn:Hb; [|discriminate].
    destruct (read_entries_of decode buf) as [l e] eqn:Hr.
    destruct e as [ex|]; [discriminate|].
    destruct (items_loop (S i) n) as [rest e'] eqn:Hil.
    injection H as <- ->.
    apply in_app_or in Hin as [Hin|Hin].
    + unfold tag_items in Hin. apply in_map_iff in Hin as [[o' t'] [Eq Hin]].
      simpl in Eq. injection Eq as <- -> ->.
      exists buf. rewrite Hr. split; [exact Hb|exact Hin].
    + exact (IH (S i) rest Hil b o t Hin).
Qed.

Lemma read_entry_run (bo : BlockOffset) (s : st Ival) :
  read_entry file decompress decode bo s
  = match block_read (bo_block bo) s with
    | (Ok raw, s1) =>
        (match entry_from_block decode (drop (bo_offset bo) raw) 0
                 (repeat 0 (sizeof EntryHeader_fields)) with
         | Ok (t, _, _) => Ok t
         | Err e => Err e
         end, s1)
    | (Err e, s1) => (Err e, s1)
    end.
Proof.
  unfold read_entry, block_read, bind.
  destruct (read_block_header file (Some (bo_block bo)) s) as [[[h nb]|e] s1]; [|reflexivity].
  destruct (read_raw_entry_block file decompress h s1) as [[raw|e] s2]; [|reflexivity].
  destruct (entry_from_block _ _ _ _) as [[[t q] e]|x]; reflexivity.
Qed.

Lemma read_entry_pre_ready (bo : BlockOffset) (s : st Ival) :
  pre_ready s ->
  fst (read_entry file decompress decode bo s) = entry_res bo
  /\ pre_ready (snd (read_entry file decompress decode bo s))
  /\ same_ic s (snd (read_entry file decompress decode bo s)).
Proof.
  intros Hs. rewrite read_entry_run. unfold entry_res, blockres.
  pose proof (block_read_pre_ready s (bo_block bo) Hs) as (E & R & I).
  revert E R I. destruct (block_read (bo_block bo) s) as [r1 s1]. simpl.
  intros <- R I. destruct r1 as [raw|x]; simpl.
  - split; [reflexivity|]. split; [apply ready_pre; exact R|exact I].
  - split; [reflexivity|]. split; [apply ready_pre; exact R|exact I].
Qed.

Lemma map_read_entries (interpret_text : text -> Ival) (sel : list (Z * nat * text)) (s : st Ival) :
  pre_ready s ->
  (forall it, In it sel -> entry_res (it_bo it) = Ok (it_text it)) ->
  fst (map_M (fun bo => let* t := read_entry file decompress decode bo in
                        ret (interpret_text t)) (map it_bo sel) s)
  = Ok (map (fun it => interpret_text (it_text it)) sel)
  /\ pre_ready (snd (map_M (fun bo => let* t := read_entry file decompress decode bo in
                                      ret (interpret_text t)) (map it_bo sel) s))
  /\ same_ic s (snd (map_M (fun bo => let* t := read_entry file decompress decode bo in
                                      ret (interpret_text t)) (map it_bo sel) s)).
Proof.
  revert s; induction sel as [|it sel IH]; intros s Hs Hall.
  - simpl. split; [reflexivity|]. split; [exact Hs|reflexivity].
  - pose proof (read_entry_pre_ready (it_bo it) s Hs) as (E & R & I).
    rewrite (Hall it (or_introl eq_refl)) in E.
    cbn [map map_M]. unfold bind, ret.
    revert E R I. destruct (read_entry file decompress decode (it_bo it) s) as [r1 s1].
    simpl. intros -> R I. cbv beta iota.
    destruct (IH s1 R (fun it' H => Hall it' (or_intror H))) as (E2 & R2 & I2).
    unfold bind, ret in E2, R2, I2. revert E2 R2 I2.
    destruct (map_M _ (map it_bo sel) s1) as [[ys|x] s2]; simpl; intros E2 R2 I2;
      [|discriminate].
    injection E2 as ->. split; [reflexivity|]. split; [exact R2|].
    etransitivity; [exact I|exact I2].
Qed.

(** The entries of a complete scan are read back by [_read_entry] at their
    offsets, given that zero bytes never decode to a text with a double
    quote. *)
Lemma scanned_entry_reads_back (N : nat) (its : list (Z * nat * text)) (it : Z * nat * text) :
  (forall n t, decode (repeat 0 n) = Some t -> ~ In 34 t) ->
  items_loop 0 N = (its, None) -> In it its -> In 34 (it_text it) ->
  entry_res (it_bo it) = Ok (it_text it).
Proof.
  intros Hz Hil Hin Hq. destruct it as [[b o] t].
  change (In 34 t) in Hq. change (entry_res (BO b o) = Ok t).
  destruct (items_loop_entry N 0 its Hil b o t Hin) as (raw & Hb & Hin').
  unfold entry_res. change (bo_block (BO b o)) with b. change (bo_offset (BO b o)) with o.
  rewrite Hb.
  unfold read_entries_of in Hin'.
  destruct (read_entries_loop_entry _ raw 0 _ o t (repeat_length 0 _) Hin')
    as [(q & e & Hefb)|(n & Hn)].
  - rewrite Hefb. reflexivity.
  - exfalso. exact (Hz n t Hn Hq).
Qed.

End Ready.

Lemma find_blocks_single_same (s s' : st Ival) (q : Z) :
  block_pos s = {[0 := q]} -> block_pos s' = {[0 := q]} -> block_count s = block_count s' ->
  fst (find_blocks file s) = fst (find_blocks file s').
Proof.
  intros H1 H2 H3. rewrite (find_blocks_single s q H1), (find_blocks_single s' q H2).
  unfold bind, f_seek. destruct (q <? 0); [reflexivity|]. rewrite H3.
  apply resp_find_blocks_loop. repeat split; simpl; congruence.
Qed.

Lemma seek_block_find_err (s : st Ival) (j : Z) (e : exn) :
  fst (find_blocks file s) = Err e -> fst (seek_block file j s) = Err e.
Proof.
  unfold seek_block, bind. destruct (find_blocks file s) as [[[]|e'] s1]; simpl; congruence.
Qed.

Lemma opened_facts (c : bool) (so : st Ival) :
  read_body_header file (init_st c) = (Ok tt, so) ->
  block_pos so = {[0 := f_pos so]} /\ 0 <= f_pos so /\ index so = None
  /\ cache so = cache (init_st (Ival:=Ival) c).
Proof.
  unfold read_body_header, bind, f_seek, raise, ret, modify, f_tell.
  change (0 <? 0) with false. cbv beta iota.
  unfold f_readinto. cbv beta iota zeta.
  destruct (negb _); intros H; [discriminate|].
  injection H as <-. cbn. split; [reflexivity|]. split; [lia|]. split; reflexivity.
Qed.

Lemma build_index_run (title_tag : text) (s : st Ival) :
  index s = None ->
  build_index file decompress decode title_tag s
  = read_all_entries_loop file decompress decode (build_index_body (title_tag ++ [61; 34]))
      0 (Z.to_nat (block_count s)) tt (set_index s (Some ∅)).
Proof.
  intros H. unfold build_index, read_all_entries, bind, get, modify.
  cbv beta iota. rewrite H. reflexivity.
Qed.

Lemma stream_all_entries_run (s : st Ival) :
  stream_all_entries file decompress decode s
  = read_all_entries_loop file decompress decode (fun acc it => ret (acc ++ [it]))
      0 (Z.to_nat (block_count s)) [] s.
Proof. reflexivity. Qed.

Lemma build_index_walks (title_tag : text) (so : st Ival) :
  block_pos so = {[0 := f_pos so]} -> 0 <= f_pos so -> index so = None ->
  fst (build_index file decompress decode title_tag so) = Ok tt ->
  fst (find_blocks file so) = Ok tt.
Proof.
  intros Hb Hp Hi. rewrite (build_index_run title_tag so Hi).
  destruct (Z.to_nat (block_count so)) as [|n] eqn:HN.
  - intros _. rewrite (find_blocks_single so (f_pos so) Hb).
    unfold bind, f_seek. rewrite (proj2 (Z.ltb_ge _ _) Hp). rewrite HN. reflexivity.
  - rewrite read_all_entries_loop_step, block_read_run.
    destruct (fst (find_blocks file so)) as [[]|e] eqn:E; [reflexivity|].
    assert (E' : fst (find_blocks file (set_index so (Some ∅))) = Err e).
    { rewrite <- E. apply (find_blocks_single_same _ _ (f_pos so)); [exact Hb|exact Hb|reflexivity]. }
    pose proof (seek_block_find_err _ (Z.of_nat 0) e E') as Hs.
    revert Hs. destruct (seek_block file (Z.of_nat 0) (set_index so (Some ∅))) as [r s1].
    simpl. intros ->. simpl. discriminate.
Qed.

Lemma scan_result_ok {A} g (r : list (Z * nat * text) * option exn) (a a' : A) u u' :
  scan_result g r a u = (Ok a', u') ->
  snd r = None /\ gfold g (fst r) a u = (Ok a', u').
Proof.
  unfold scan_result. destruct (gfold g (fst r) a u) as [[a1|e] u1]; [|discriminate].
  destruct (snd r) as [e|]; [discriminate|]. intros H. split; [reflexivity|exact H].
Qed.

Lemma rbh_fpos (t1 t2 : st Ival) :
  f_pos t1 = f_pos t2 ->
  fst (read_block_header_here file t1) = fst (read_block_header_here file t2).
Proof.
  intros H. unfold read_block_header_here, bind, f_readinto, f_tell. cbn [fst snd f_pos set_file].
  rewrite H. destruct (100000000 <? _); reflexivity.
Qed.

Lemma find_blocks_loop_chain n : forall i (s s' : st Ival),
  find_blocks_loop file i n s = (Ok tt, s') ->
  (forall k, (k < Z.of_nat i \/ Z.of_nat (i + n) <= k) -> block_pos s' !! k = block_pos s !! k)
  /\ (forall k, Z.of_nat i <= k < Z.of_nat (i + n) -> is_Some (block_pos s' !! k))
  /\ ((0 < n)%nat -> block_pos s' !! Z.of_nat i = Some (f_pos s))
  /\ (forall k p (t : st Ival), Z.of_nat i <= k -> k + 1 < Z.of_nat (i + n) ->
        block_pos s' !! k = Some p -> f_pos t = p ->
        exists h nb, fst (read_block_header_here file t) = Ok (h, nb)
                     /\ block_pos s' !! (k + 1) = Some nb).
Proof.
  induction n as [|n IH]; intros i s s' H.
  - cbn in H. injection H as <-. repeat split; intros; try lia; reflexivity.
  - cbn [find_blocks_loop] in H. unfold bind at 1, f_tell at 1 in H. cbv beta iota in H.
    unfold bind at 1, modify at 1 in H. cbv beta iota in H.
    set (sa := set_block_pos s (<[Z.of_nat i:=f_pos s]> (block_pos s))) in H.
    unfold bind at 1 in H.
    destruct (read_block_header_here file sa) as [[[h nb]|e] sb] eqn:Eh; [|discriminate].
    pose proof (fix_read_block_header_here sa) as Fb. rewrite Eh in Fb. cbn [snd] in Fb.
    unfold bind, f_seek in H. destruct (nb <? 0) eqn:En; [discriminate|].
    set (sc := set_file sb nb (reads sb)) in H.
    assert (Bc : block_pos sc = <[Z.of_nat i:=f_pos s]> (block_pos s)).
    { unfold sc. cbn. destruct Fb as [_ ->]. reflexivity. }
    destruct (IH (S i) sc s' H) as [O1 [O2 [O3 O4]]].
    assert (Hi : block_pos s' !! Z.of_nat i = Some (f_pos s)).
    { rewrite O1 by lia. rewrite Bc. apply lookup_insert_eq. }
    split; [|split; [|split]].
    + intros k Hk. rewrite O1 by lia. rewrite Bc. apply lookup_insert_ne. lia.
    + intros k Hk. destruct (Z.eq_dec k (Z.of_nat i)) as [->|Hne]; [rewrite Hi; eauto|].
      apply O2. lia.
    + intros _. exact Hi.
    + intros k p t Hk1 Hk2 Hp Ht. destruct (Z.eq_dec k (Z.of_nat i)) as [->|Hne].
      * rewrite Hi in Hp. injection Hp as <-. exists h, nb. split.
        -- rewrite (rbh_fpos t sa) by (rewrite Ht; reflexivity). rewrite Eh. reflexivity.
        -- replace (Z.of_nat i + 1) with (Z.of_nat (S i)) by lia. rewrite O3 by lia. reflexivity.
      * apply (O4 k p t); try lia; assumption.
Qed.

Lemma ic_get : keeps same_ic (get (S:=st Ival)).
Proof. intros s. repeat split. Qed.

Lemma ic_seek_block j : keeps same_ic (seek_block (Ival:=Ival) file j).
Proof.
  unfold seek_block. apply keeps_bind; [typeclasses eauto|apply ic_find_blocks|intros _].
  apply keeps_bind; [typeclasses eauto|apply ic_get|intros s].
  destruct (block_pos s !! j); [apply ic_fix, fix_f_seek|apply keeps_raise; typeclasses eauto].
Qed.

Lemma ic_read_entry bo : keeps same_ic (read_entry (Ival:=Ival) file decompress decode bo).
Proof.
  unfold read_entry, read_block_header.
  apply keeps_bind; [typeclasses eauto| |intros [h nb]; cbv beta iota].
  - apply keeps_bind; [typeclasses eauto|apply ic_seek_block|intros _].
    apply ic_fix, fix_read_block_header_here.
  - apply keeps_bind; [typeclasses eauto|apply ic_fix, fix_read_raw_entry_block|intros raw].
    destruct (entry_from_block _ _ _ _) as [[[t q] e]|e];
      [apply keeps_ret|apply keeps_raise]; typeclasses eauto.
Qed.

Lemma ic_map_M {A B} (f : A -> SM (st Ival) B) (l : list A) :
  (forall x, keeps same_ic (f x)) -> keeps same_ic (map_M f l).
Proof.
  intros Hf. induction l as [|x l IH]; simpl; [apply keeps_ret; typeclasses eauto|].
  apply keeps_bind; [typeclasses eauto|apply Hf|intros y].
  apply keeps_bind; [typeclasses eauto|exact IH|intros ys]. apply keeps_ret; typeclasses eauto.
Qed.

Lemma ic_read_matches (interpret_text : text -> Ival) (l : list BlockOffset) :
  keeps same_ic (map_M (fun bo => let* t := read_entry (Ival:=Ival) file decompress decode bo in
                                  ret (interpret_text t)) l).
Proof.
  apply ic_map_M. intros bo.
  apply keeps_bind; [typeclasses eauto|apply ic_read_entry|intros t].
  apply keeps_ret; typeclasses eauto.
Qed.

Lemma hi_ic {A} (m : SM (st Ival) A) : keeps same_ic m -> keeps has_index m.
Proof. intros H s Hs. destruct (H s) as [-> _]. exact Hs. Qed.

Lemma hi_block_read j : keeps has_index (block_read j).
Proof.
  apply hi_ic. unfold block_read, read_block_header.
  apply keeps_bind; [typeclasses eauto| |intros [h nb]; cbv beta iota].
  - apply keeps_bind; [typeclasses eauto|apply ic_seek_block|intros _].
    apply ic_fix, fix_read_block_header_here.
  - apply ic_fix, fix_read_raw_entry_block.
Qed.

Lemma hi_feed (tag : text) (blk : Z) (l : list (nat * text)) (e : option exn) :
  forall u, keeps has_index (feed (Ival:=Ival) (build_index_body tag) blk l e u).
Proof.
  induction l as [|[p t] l IH]; intros u; cbn [feed].
  - destruct e; [apply keeps_raise|apply keeps_ret]; typeclasses eauto.
  - apply keeps_bind; [typeclasses eauto| |intros []; apply IH].
    intros s Hs. unfold build_index_body. destruct (index s) as [idx|] eqn:Ei;
      [|simpl; rewrite Ei; exact Hs].
    destruct (index_step tag idx (blk, p, t)); simpl; [|rewrite Ei]; eexists; reflexivity.
Qed.

Lemma hi_loop (tag : text) (n : nat) :
  forall i u, keeps has_index
    (read_all_entries_loop (Ival:=Ival) file decompress decode (build_index_body tag) i n u).
Proof.
  induction n as [|n IH]; intros i u s; [intros H; exact H|].
  rewrite read_all_entries_loop_step.
  pose proof (hi_block_read (Z.of_nat i) s) as H1.
  destruct (block_read (Z.of_nat i) s) as [[buf|e] s1]; [|exact H1].
  destruct (read_entries_of decode buf) as [l e]. unfold bind.
  pose proof (hi_feed tag (Z.of_nat i) l e u s1) as H2.
  destruct (feed _ _ l e u s1) as [[u'|x] s2]; cbn [snd] in *;
    pose proof (IH (S i)) as IH'; unfold keeps, has_index in *; cbn [snd] in *.
  - intros Hs. apply (IH' u' s2). auto.
  - auto.
Qed.

End Scan.

Lemma index_scan_facts {Ival : Type} (file : list Z)
  (decompress : list Z -> option (list Z)) (decode : list Z -> option text)
  (c : bool) (title_tag : text) (s0 s1 : st Ival) (idx : gmap text (list BlockOffset)) :
  (forall n t, decode (repeat 0 n) = Some t -> ~ In 34 t) ->
  read_body_header file (init_st c) = (Ok tt, s0) ->
  build_index file decompress decode title_tag s0 = (Ok tt, s1) ->
  index s1 = Some idx ->
  block_pos s0 = {[0 := f_pos s0]} /\ fst (find_blocks file s0) = Ok tt
  /\ pre_ready file s0 s1 /\ cache s1 = cache (init_st (Ival:=Ival) c)
  /\ idx !! [] = None
  /\ exists its,
       fst (stream_all_entries file decompress decode s0) = Ok its
       /\ (forall it, In it its -> entry_res file decompress decode s0 (it_bo it) = Ok (it_text it))
       /\ (forall title, title <> [] ->
             default [] (idx !! title)
             = map it_bo (List.filter (title_is (title_tag ++ [61; 34]) title) its)).
Proof.
  intros Hz Hopen Hbuild Hidx.
  destruct (opened_facts file c s0 Hopen) as (Hbp & Hp & Hi & Hc).
  assert (HW : fst (find_blocks file s0) = Ok tt).
  { apply (build_index_walks file decompress decode title_tag s0 Hbp Hp Hi).
    rewrite Hbuild. reflexivity. }
  assert (P0 : pre_ready file s0 s0) by (split; [left; exact Hbp|reflexivity]).
  rewrite (build_index_run file decompress decode title_tag s0 Hi) in Hbuild.
  destruct (scan_spec file decompress decode s0 Hbp HW (g_index (title_tag ++ [61; 34])) _
              (body_by_index _) (Z.to_nat (block_count s0)) 0 tt
              (set_index s0 (Some ∅)) (pre_ready_set_index file s0 _ _ P0)) as (R1 & C1 & E1).
  rewrite Hbuild in R1, C1, E1. cbn [fst snd] in R1, C1, E1.
  rewrite Hidx in E1.
  change (index (set_index s0 (Some ∅))) with (Some (∅ : gmap text (list BlockOffset))) in E1.
  destruct (items_loop file decompress decode s0 0 (Z.to_nat (block_count s0)))
    as [its e] eqn:Hil.
  destruct (scan_result_ok _ _ _ _ _ _ (eq_sym E1)) as (He & Hg).
  cbn [fst snd] in He, Hg. subst e.
  destruct (gfold_index _ its ∅ (Some idx) Hg) as (idx' & Hsome & Htitles & Hnil & Hdef).
  injection Hsome as <-.
  split; [exact Hbp|]. split; [exact HW|]. split; [exact R1|].
  split; [rewrite C1; exact Hc|]. split; [rewrite Hnil; reflexivity|].
  exists its. split; [|split].
  - rewrite stream_all_entries_run.
    destruct (scan_spec file decompress decode s0 Hbp HW g_collect _ body_by_collect
                (Z.to_nat (block_count s0)) 0 [] s0 P0) as (_ & _ & E2).
    rewrite Hil in E2. unfold scan_result in E2. rewrite gfold_collect in E2.
    cbn [fst snd] in E2. injection E2 as E2 _. exact E2.
  - intros it Hin. destruct (Htitles it Hin) as (title & Ht).
    exact (scanned_entry_reads_back file decompress decode s0 _ its it Hz Hil Hin
             (entry_title_quote _ _ _ Ht)).
  - intros title Hne. rewrite (Hdef title Hne). rewrite lookup_empty. reflexivity.
Qed.

Lemma utf8_decode_zeros (n : nat) : utf8_decode (repeat 0 n) = Some (repeat 0 n).
Proof. induction n as [|n IH]; simpl; [reflexivity|]. rewrite IH. reflexivity. Qed.

Lemma utf8_zeros_no_quote (n : nat) (t : text) : utf8_decode (repeat 0 n) = Some t -> ~ In 34 t.
Proof.
  rewrite utf8_decode_zeros. intros H; injection H as <-. intros Hin.
  apply repeat_spec in Hin. discriminate.
Qed.

Lemma fst_bind {S A B} (m : SM S A) (k : A -> SM S B) (s : S) :
  fst (bind m k s) = match m s with (Ok a, s') => fst (k a s') | (Err e, _) => Err e end.
Proof. unfold bind. destruct (m s) as [[a|e] s']; reflexivity. Qed.

Lemma nth_take_lt (i n : nat) (l : list Z) (d : Z) :
  (i < n)%nat -> nth i (take n l) d = nth i l d.
Proof.
  revert n l; induction i as [|i IH]; intros [|n] [|x l] H; simpl; try lia; try reflexivity.
  apply IH. lia.
Qed.

Lemma le32_take (n off : nat) (l : list Z) :
  (off + 4 <= n)%nat -> le32 (take n l) off = le32 l off.
Proof.
  intros H. unfold le32, byte_at. rewrite !nth_take_lt by lia. reflexivity.
Qed.

Lemma buf_readinto_pos (buf : list Z) (pos : nat) (prior : list Z) :
  (pos <= length buf)%nat ->
  (pos <= snd (buf_readinto buf pos prior) <= length buf)%nat
  /\ ((pos < length buf)%nat -> prior <> [] -> (pos < snd (buf_readinto buf pos prior))%nat).
Proof.
  intros H. unfold buf_readinto. cbn [snd]. rewrite length_take, length_drop.
  split; [lia|]. intros H1 H2. destruct prior; [congruence|]. cbn [length]. lia.
Qed.

Lemma entry_from_block_advance (decode : list Z -> option text) (buf : list Z) (pos : nat)
  (eh : list Z) t q e :
  length eh = 4%nat -> (pos < length buf)%nat ->
  entry_from_block decode buf pos eh = Ok (t, q, e) ->
  (pos < q <= length buf)%nat /\ length e = 4%nat.
Proof.
  intros Heh Hp. unfold entry_from_block.
  pose proof (buf_readinto_pos buf pos eh ltac:(lia)) as [[A1 A2] A3].
  pose proof (length_buf_readinto buf pos eh) as L1.
  destruct (buf_readinto buf pos eh) as [eh1 p1]. cbn [fst snd] in *.
  pose proof (buf_readinto_pos buf p1 (repeat 0 (Z.to_nat (entry_length eh1))) A2) as [[B1 B2] _].
  destruct (buf_readinto buf p1 _) as [raw p2]. cbn [fst snd] in *.
  destruct (decode raw); intros H; [|discriminate].
  injection H as <- <- <-. split; [|lia].
  assert (pos < p1)%nat by (apply A3; [exact Hp|intros ->; discriminate]). lia.
Qed.

Lemma read_entries_loop_offsets (decode : list Z -> option text) (fuel : nat) (buf : list Z)
  (pos : nat) (eh : list Z) :
  length eh = 4%nat ->
  StronglySorted Nat.lt (map fst (fst (read_entries_loop decode fuel buf pos eh)))
  /\ Forall (fun o => pos <= o < length buf)%nat
       (map fst (fst (read_entries_loop decode fuel buf pos eh))).
Proof.
  revert pos eh; induction fuel as [|fuel IH]; intros pos eh Heh; simpl.
  - split; constructor.
  - destruct (pos <? length buf)%nat eqn:Hlt; [|split; constructor].
    apply Nat.ltb_lt in Hlt.
    destruct (entry_from_block decode buf pos eh) as [[[t q] e]|x] eqn:Hefb;
      [|split; constructor].
    destruct (entry_from_block_advance decode buf pos eh t q e Heh Hlt Hefb) as [Hq He].
    destruct (IH q e He) as [S1 F1].
    destruct (read_entries_loop decode fuel buf q e) as [l e'] eqn:Hl. simpl in *.
    split.
    + constructor; [exact S1|]. apply (Forall_impl _ _ _ F1). simpl. lia.
    + constructor; [simpl; lia|]. apply (Forall_impl _ _ _ F1). simpl. lia.
Qed.

Lemma read_entries_of_offsets (decode : list Z -> option text) (buf : list Z) :
  StronglySorted Nat.lt (map fst (fst (read_entries_of decode buf)))
  /\ Forall (fun o => o < length buf)%nat (map fst (fst (read_entries_of decode buf))).
Proof.
  destruct (read_entries_loop_offsets decode (length buf) buf 0
              (repeat 0 (sizeof EntryHeader_fields)) eq_refl) as [S1 F1].
  split; [exact S1|]. apply (Forall_impl _ _ _ F1). simpl. lia.
Qed.

Lemma read_entries_loop_fuel (decode : list Z -> option text) (buf : list Z) (f1 f2 : nat) :
  forall pos eh, length eh = 4%nat ->
  (length buf - pos <= f1)%nat -> (length buf - pos <= f2)%nat ->
  read_entries_loop decode f1 buf pos eh = read_entries_loop decode f2 buf pos eh.
Proof.
  revert f2; induction f1 as [|f1 IH]; intros [|f2] pos eh Heh H1 H2; simpl.
  - reflexivity.
  - rewrite (proj2 (Nat.ltb_ge pos (length buf))) by lia. reflexivity.
  - rewrite (proj2 (Nat.ltb_ge pos (length buf))) by lia. reflexivity.
  - destruct (pos <? length buf)%nat eqn:Hlt; [|reflexivity].
    apply Nat.ltb_lt in Hlt.
    destruct (entry_from_block decode buf pos eh) as [[[t q] e]|x] eqn:Hefb; [|reflexivity].
    destruct (entry_from_block_advance decode buf pos eh t q e Heh Hlt Hefb) as [Hq He].
    rewrite (IH f2 q e He) by lia. reflexivity.
Qed.

Lemma is_prefix_nth (p t : text) :
  is_prefix p t = true -> forall i, (i < length p)%nat -> nth i t 0 = nth i p 0.
Proof.
  revert t; induction p as [|x p IH]; intros [|y t] H i Hi; simpl in *; try lia;
    try discriminate.
  apply andb_true_iff in H as [Hxy H]. apply Z.eqb_eq in Hxy.
  destruct i as [|i]; [congruence|]. apply IH; [exact H|lia].
Qed.

Lemma is_prefix_app (p r : text) : is_prefix p (p ++ r) = true.
Proof. induction p as [|x p IH]; simpl; [reflexivity|]. rewrite Z.eqb_refl. exact IH. Qed.

Lemma str_index_from_skip (sub pre X : text) (k : nat) :
  (forall j, (j < length pre)%nat -> is_prefix sub (drop j pre ++ X) = false) ->
  str_index_from (pre ++ X) sub k = str_index_from X sub (k + length pre).
Proof.
  revert k; induction pre as [|x pre IH]; intros k H; simpl.
  - rewrite Nat.add_0_r. reflexivity.
  - pose proof (H 0%nat ltac:(simpl; lia)) as H0. simpl in H0. rewrite H0. rewrite IH.
    + f_equal. lia.
    + intros j Hj. exact (H (S j) ltac:(simpl; lia)).
Qed.

Lemma str_index_found (sub pre rest : text) :
  (forall j, (j < length pre)%nat -> is_prefix sub (drop j pre ++ sub ++ rest) = false) ->
  str_index (pre ++ sub ++ rest) sub = Ok (length pre).
Proof.
  intros H. unfold str_index. rewrite str_index_from_skip by exact H.
  destruct sub as [|c sub]; [destruct rest; reflexivity|].
  simpl. rewrite Z.eqb_refl, is_prefix_app. reflexivity.
Qed.

Lemma in_drop_in (j : nat) (l : list Z) (x : Z) : In x (drop j l) -> In x l.
Proof.
  revert l; induction j as [|j IH]; intros [|y l] H; simpl in *; auto.
Qed.

Lemma tag_no_early_match (title_tag pre rest : text) (j : nat) :
  ~ In 34 title_tag -> ~ In 34 pre -> (j < length pre)%nat ->
  is_prefix (title_tag ++ [61; 34]) (drop j pre ++ (title_tag ++ [61; 34]) ++ rest) = false.
Proof.
  intros Ht Hp Hj. destruct (is_prefix _ _) eqn:E; [|reflexivity]. exfalso.
  set (tag := title_tag ++ [61; 34]) in *.
  assert (Hlt : length tag = (length title_tag + 2)%nat)
    by (unfold tag; rewrite List.length_app; reflexivity).
  pose proof (is_prefix_nth _ _ E (length title_tag + 1) ltac:(lia)) as Hn.
  assert (Hq : nth (length title_tag + 1) tag 0 = 34).
  { unfold tag. rewrite app_nth2 by lia. replace (length title_tag + 1 - length title_tag)%nat with 1%nat by lia.
    reflexivity. }
  rewrite Hq in Hn.
  set (u := drop j pre) in *.
  assert (Hu : (1 <= length u)%nat) by (unfold u; rewrite length_drop; lia).
  destruct (Nat.lt_ge_cases (length title_tag + 1) (length u)) as [Hin|Hge].
  - rewrite app_nth1 in Hn by exact Hin.
    apply Hp. apply (in_drop_in j). fold u. rewrite <- Hn. apply nth_In. exact Hin.
  - rewrite app_nth2 in Hn by exact Hge.
    rewrite app_nth1 in Hn by lia.
    unfold tag in Hn.
    destruct (Nat.lt_ge_cases (length title_tag + 1 - length u) (length title_tag)) as [H2|H2].
    + rewrite app_nth1 in Hn by exact H2. apply Ht. rewrite <- Hn. apply nth_In. exact H2.
    + rewrite app_nth2 in Hn by exact H2.
      replace (length title_tag + 1 - length u - length title_tag)%nat with 0%nat in Hn by lia.
      discriminate.
Qed.

Lemma quote_no_early_match (title rest : text) (j : nat) :
  ~ In 34 title -> (j < length title)%nat ->
  is_prefix [34] (drop j title ++ [34] ++ rest) = false.
Proof.
  intros Ht Hj. destruct (drop j title) as [|x u] eqn:E.
  - apply (f_equal (@length Z)) in E. rewrite length_drop in E. simpl in E. lia.
  - cbn [is_prefix app]. rewrite andb_true_r.
    destruct (34 =? x) eqn:Ex; [|reflexivity]. apply Z.eqb_eq in Ex. subst x.
    exfalso. apply Ht. apply (in_drop_in j). rewrite E. left. reflexivity.
Qed.

Lemma ssorted_app {A} (R : A -> A -> Prop) (l1 l2 : list A) :
  StronglySorted R l1 -> StronglySorted R l2 ->
  (forall x y, In x l1 -> In y l2 -> R x y) -> StronglySorted R (l1 ++ l2).
Proof.
  intros H1 H2. induction H1 as [|x l1 Hs IH Hf]; intros H; simpl; [exact H2|].
  constructor.
  - apply IH. intros a b Ha Hb. apply H; [right|]; assumption.
  - apply Forall_app. split; [exact Hf|]. apply List.Forall_forall. intros y Hy. apply H; [left|]; auto.
Qed.

Lemma tag_items_sorted (j : Z) (l : list (nat * text)) :
  StronglySorted Nat.lt (map fst l) -> StronglySorted entry_before (tag_items j l).
Proof.
  induction l as [|[o t] l IH]; intros H; simpl; [constructor|].
  apply StronglySorted_inv in H as [H1 H2]. constructor; [apply IH; exact H1|].
  unfold tag_items. apply List.Forall_forall. intros y Hy. apply in_map_iff in Hy as [[o' t'] [<- Hy]].
  right. simpl. split; [reflexivity|].
  rewrite List.Forall_forall in H2. apply H2. apply in_map_iff. exists (o', t'). auto.
Qed.

Lemma tag_items_block (j : Z) (l : list (nat * text)) :
  Forall (fun it => fst (fst it) = j) (tag_items j l).
Proof. unfold tag_items. apply List.Forall_forall. intros y Hy. apply in_map_iff in Hy as [? [<- _]]. reflexivity. Qed.

Lemma items_loop_sorted {Ival : Type} (file : list Z) (decompress : list Z -> option (list Z))
  (decode : list Z -> option text) (so : st Ival) (n : nat) :
  forall i its e, items_loop file decompress decode so i n = (its, e) ->
  StronglySorted entry_before its
  /\ Forall (fun it => Z.of_nat i <= fst (fst it) < Z.of_nat (i + n)) its.
Proof.
  induction n as [|n IH]; intros i its e H; cbn [items_loop] in H.
  - injection H as <- _. split; constructor.
  - destruct (blockres file decompress so (Z.of_nat i)) as [buf|x];
      [|injection H as <- _; split; constructor].
    pose proof (proj1 (read_entries_of_offsets decode buf)) as Hs.
    destruct (read_entries_of decode buf) as [l e0]. cbn [fst] in Hs.
    pose proof (tag_items_block (Z.of_nat i) l) as Hb.
    assert (Hb' : Forall (fun it => Z.of_nat i <= fst (fst it) < Z.of_nat (i + S n))
                    (tag_items (Z.of_nat i) l)).
    { apply (Forall_impl _ _ _ Hb). intros it ->. lia. }
    destruct e0 as [ex|].
    + injection H as <- _. split; [apply tag_items_sorted; exact Hs|exact Hb'].
    + destruct (items_loop file decompress decode so (S i) n) as [rest e'] eqn:Hr.
      injection H as <- _. destruct (IH (S i) rest e' Hr) as [Rs Rb].
      split.
      * apply ssorted_app; [apply tag_items_sorted; exact Hs|exact Rs|].
        intros x y Hx Hy. rewrite List.Forall_forall in Hb, Rb.
        left. rewrite (Hb x Hx). specialize (Rb y Hy). lia.
      * apply Forall_app. split; [exact Hb'|].
        apply (Forall_impl _ _ _ Rb). intros it Hit. lia.
Qed.

Lemma stream_walks {Ival : Type} (file : list Z) (decompress : list Z -> option (list Z))
  (decode : list Z -> option text) (so : st Ival) its :
  block_pos so = {[0 := f_pos so]} -> 0 <= f_pos so ->
  fst (stream_all_entries file decompress decode so) = Ok its ->
  fst (find_blocks file so) = Ok tt.
Proof.
  intros Hb Hp. rewrite stream_all_entries_run.
  destruct (Z.to_nat (block_count so)) as [|n] eqn:HN.
  - intros _. rewrite (find_blocks_single file so (f_pos so) Hb).
    unfold bind, f_seek. rewrite (proj2 (Z.ltb_ge _ _) Hp). rewrite HN. reflexivity.
  - rewrite read_all_entries_loop_step, block_read_run.
    destruct (fst (find_blocks file so)) as [[]|e] eqn:E; [reflexivity|].
    pose proof (seek_block_find_err file _ (Z.of_nat 0) e E) as Hs.
    revert Hs. destruct (seek_block file (Z.of_nat 0) so) as [r s1].
    simpl. intros ->. simpl. discriminate.
Qed.

Lemma stream_order_facts {Ival : Type} (file : list Z)
  (decompress : list Z -> option (list Z)) (decode : list Z -> option text)
  (c : bool) (so : st Ival) (its : list (Z * nat * text)) :
  read_body_header file (init_st c) = (Ok tt, so) ->
  fst (stream_all_entries file decompress decode so) = Ok its ->
  StronglySorted entry_before its
  /\ Forall (fun it => 0 <= fst (fst it) < block_count so) its.
Proof.
  intros Ho Hs. destruct (opened_facts file c so Ho) as (Hbp & Hp & _ & _).
  pose proof (stream_walks file decompress decode so its Hbp Hp Hs) as HW.
  assert (P0 : pre_ready file so so) by (split; [left; exact Hbp|reflexivity]).
  destruct (scan_spec file decompress decode so Hbp HW g_collect _ body_by_collect
              (Z.to_nat (block_count so)) 0 [] so P0) as (_ & _ & E2).
  rewrite <- stream_all_entries_run in E2.
  destruct (items_loop file decompress decode so 0 (Z.to_nat (block_count so)))
    as [its' e] eqn:Hil.
  destruct (items_loop_sorted file decompress decode so _ 0 its' e Hil) as [S1 F1].
  destruct (stream_all_entries file decompress decode so) as [r s'] eqn:Es.
  cbn [fst] in Hs. subst r.
  unfold scan_result in E2. rewrite gfold_collect in E2. cbn [fst snd app] in E2.
  destruct e as [ex|]; [discriminate|]. injection E2 as <- _.
  split; [exact S1|]. apply (Forall_impl _ _ _ F1). intros it Hit. lia.
Qed.

Lemma index_scan_core {Ival : Type} (file : list Z)
  (decompress : list Z -> option (list Z)) (decode : list Z -> option text)
  (c : bool) (title_tag : text) (s0 s1 : st Ival) (idx : gmap text (list BlockOffset)) :
  read_body_header file (init_st c) = (Ok tt, s0) ->
  build_index file decompress decode title_tag s0 = (Ok tt, s1) ->
  index s1 = Some idx ->
  idx !! [] = None
  /\ exists its,
       fst (stream_all_entries file decompress decode s0) = Ok its
       /\ (forall title, title <> [] ->
             default [] (idx !! title)
             = map it_bo (List.filter (title_is (title_tag ++ [61; 34]) title) its)).
Proof.
  intros Hopen Hbuild Hidx.
  destruct (opened_facts file c s0 Hopen) as (Hbp & Hp & Hi & Hc).
  assert (HW : fst (find_blocks file s0) = Ok tt).
  { apply (build_index_walks file decompress decode title_tag s0 Hbp Hp Hi).
    rewrite Hbuild. reflexivity. }
  assert (P0 : pre_ready file s0 s0) by (split; [left; exact Hbp|reflexivity]).
  rewrite (build_index_run file decompress decode title_tag s0 Hi) in Hbuild.
  destruct (scan_spec file decompress decode s0 Hbp HW (g_index (title_tag ++ [61; 34])) _
              (body_by_index _) (Z.to_nat (block_count s0)) 0 tt
              (set_index s0 (Some ∅)) (pre_ready_set_index file s0 _ _ P0)) as (R1 & C1 & E1).
  rewrite Hbuild in R1, C1, E1. cbn [fst snd] in R1, C1, E1.
  rewrite Hidx in E1.
  change (index (set_index s0 (Some ∅))) with (Some (∅ : gmap text (list BlockOffset))) in E1.
  destruct (items_loop file decompress decode s0 0 (Z.to_nat (block_count s0)))
    as [its e] eqn:Hil.
  destruct (scan_result_ok _ _ _ _ _ _ (eq_sym E1)) as (He & Hg).
  cbn [fst snd] in He, Hg. subst e.
  destruct (gfold_index _ its ∅ (Some idx) Hg) as (idx' & Hsome & Htitles & Hnil & Hdef).
  injection Hsome as <-.
  split; [rewrite Hnil; reflexivity|].
  exists its. split.
  - rewrite stream_all_entries_run.
    destruct (scan_spec file decompress decode s0 Hbp HW g_collect _ body_by_collect
                (Z.to_nat (block_count s0)) 0 [] s0 P0) as (_ & _ & E2).
    rewrite Hil in E2. unfold scan_result in E2. rewrite gfold_collect in E2.
    cbn [fst snd] in E2. injection E2 as E2 _. exact E2.
  - intros title Hne. rewrite (Hdef title Hne). rewrite lookup_empty. reflexivity.
Qed.

Lemma ssorted_filter {A} (R : A -> A -> Prop) (f : A -> bool) (l : list A) :
  StronglySorted R l -> StronglySorted R (List.filter f l).
Proof.
  induction 1 as [|x l Hs IH Hf]; simpl; [constructor|].
  destruct (f x); [|exact IH]. constructor; [exact IH|].
  rewrite List.Forall_forall in *. intros y Hy. apply filter_In in Hy as [Hy _]. auto.
Qed.

Lemma ssorted_map {A B} (R : A -> A -> Prop) (R' : B -> B -> Prop) (g : A -> B) (l : list A) :
  (forall a b, R a b -> R' (g a) (g b)) -> StronglySorted R l -> StronglySorted R' (map g l).
Proof.
  intros Hg. induction 1 as [|x l Hs IH Hf]; simpl; constructor; [exact IH|].
  rewrite List.Forall_forall in *. intros y Hy. apply in_map_iff in Hy as [z [<- Hz]]. auto.
Qed.

Lemma getitem_cache_facts {Ival : Type} (file : list Z) (decompress : list Z -> option (list Z))
  (decode : list Z -> option text) (interpret_text : text -> Ival) (word : text) (s : st Ival) :
  match getitem file decompress decode interpret_text word s with
  | (Ok m, s') => index s' = index s
                  /\ cache s' = match cache s with
                                | Some c => Some (<[word := m]> c)
                                | None => None
                                end
  | (Err _, s') => index s' = index s /\ cache s' = cache s
  end.
Proof.
  unfold getitem. unfold bind at 1, get. cbv beta iota.
  destruct (match cache s with Some c => c !! word | None => None end) as [v|] eqn:Eh.
  - unfold ret. split; [reflexivity|]. destruct (cache s) as [c|]; [|discriminate].
    rewrite insert_id by exact Eh. reflexivity.
  - destruct (index s) as [idx|] eqn:Ei; [|split; congruence].
    destruct (idx !! word) as [bos|]; [|split; congruence].
    unfold bind at 1.
    pose proof (ic_read_matches file decompress decode interpret_text bos s) as Hk.
    destruct (map_M _ bos s) as [[ms|e] s1] eqn:Em.
    + cbn [snd] in Hk. destruct Hk as [Hi [Hc _]]. unfold bind, modify, ret. cbv beta iota.
      rewrite Hc. destruct (cache s) as [c|] eqn:Ec; cbn; split; congruence.
    + cbn [snd] in Hk. destruct Hk as [Hi [Hc _]]. split; congruence.
Qed.

Ltac no_quote := let H := fresh in intros H; vm_compute in H;
  repeat (destruct H as [H|H]; [discriminate H|]); exact H.

(** ** Block headers (claim C1) *)

(** C1: immediately after [_read_block_header] has read the 12-byte block
    header at the current position, the offset it derives for the next block
    is the new file position plus [next_block] minus 8, and 8 is the offset
    of [unpacked_length] in [BlockHeader]. *)
Theorem next_block_offset {Ival : Type} (file : list Z) (s s' : st Ival)
  (h : BlockHeader) (nb : Z) :
  read_block_header_here file s = (Ok (h, nb), s') ->
  nb = f_pos s' + next_block h - 8
  /\ nb = get_next_block h (f_pos s')
  /\ field_offset "unpacked_length" BlockHeader_fields = 8%nat
  /\ (let got := take 12 (drop (Z.to_nat (f_pos s)) file) in
      h = parse_BlockHeader (got ++ drop (length got) (repeat 0 12))
      /\ f_pos s' = f_pos s + Z.of_nat (length got)).
Proof.
  unfold read_block_header_here, bind, f_readinto, f_tell, ret, raise.
  cbn [fst snd f_pos set_file sizeof sum_list_with BlockHeader_fields].
  destruct (100000000 <? _) eqn:E; intros H; inversion H; subst; clear H.
  cbn [f_pos set_file]. unfold get_next_block.
  repeat split; reflexivity.
Qed.

(** ** Opening the container (claim C2) *)

(** C2 (amended): [open] reads the 0x60-byte [DictHeader] at offset 0 with
    [readinto], which leaves zero bytes past the end of a short file; it
    succeeds iff the [check] field so read is 0x20 and fails with the format
    error ([ValueError]) otherwise; a file of at most 0x4c bytes always
    fails, but no length check is made. *)
Theorem open_validates_check {Ival : Type} (file : list Z) (c : bool) :
  let got := take (sizeof DictHeader_fields) file in
  let chk := le32 (got ++ drop (length got) (repeat 0 (sizeof DictHeader_fields))) 76 in
  fst (read_body_header file (init_st (Ival:=Ival) c))
  = (if chk =? 32 then Ok tt else Err (ValueError "Invalid dictionary header"))
  /\ ((length file <= 76)%nat ->
      fst (read_body_header file (init_st (Ival:=Ival) c))
      = Err (ValueError "Invalid dictionary header")).
Proof.
  intros got chk.
  assert (Hrun : fst (read_body_header file (init_st (Ival:=Ival) c))
                 = (if chk =? 32 then Ok tt else Err (ValueError "Invalid dictionary header"))).
  { assert (Hoff : field_offset "check" DictHeader_fields = 76%nat) by reflexivity.
    unfold read_body_header, bind, f_seek, raise, ret, modify, f_tell.
    unfold is_valid, parse_DictHeader, dh_check.
    rewrite Hoff. unfold f_readinto.
    change (0 <? 0) with false. cbv beta iota.
    cbn [fst snd f_pos set_file init_st].
    change (Z.to_nat 0) with 0%nat. rewrite drop_0, repeat_length.
    subst chk got.
    destruct (le32 _ 76 =? 32); reflexivity. }
  split; [exact Hrun|].
  intros Hlen. rewrite Hrun.
  assert (Hz : chk = 0).
  { subst chk got. unfold le32, byte_at.
    assert (Hg : (length (take (sizeof DictHeader_fields) file) <= 76)%nat).
    { rewrite length_take. lia. }
    rewrite !app_nth2 by lia. rewrite drop_repeat, !nth_repeat. reflexivity. }
  rewrite Hz. reflexivity.
Qed.

(** ** Reading a block payload (claim C3) *)

(** C3 (amended): [_read_raw_entry_block] reads [block_length] bytes at the
    current position (zero bytes past the end of the file) and decompresses
    them.  When that payload is not a valid zlib stream it raises zlib's own
    error; when it decompresses to a length other than [unpacked_length] it
    raises the length-check error, the [RuntimeError] that is the spec's
    [DataCorruptionError]; and whenever it returns a buffer, that buffer is
    the decompressed payload and has exactly [unpacked_length] bytes. *)
Theorem raw_block_length {Ival : Type} (file : list Z)
  (decompress : list Z -> option (list Z)) (h : BlockHeader) (s : st Ival) :
  let n := Z.to_nat (block_length h) in
  let got := take n (drop (Z.to_nat (f_pos s)) file) in
  let payload := got ++ drop (length got) (repeat 0 n) in
  let r := fst (read_raw_entry_block file decompress h s) in
  (decompress payload = None -> r = Err ZlibError)
  /\ (forall buf, decompress payload = Some buf -> Z.of_nat (length buf) <> unpacked_length h ->
        r = Err (RuntimeError "Unpacked length"))
  /\ (forall buf, r = Ok buf ->
        decompress payload = Some buf /\ Z.of_nat (length buf) = unpacked_length h)
  /\ (forall e, r = Err e -> e = ZlibError \/ e = RuntimeError "Unpacked length").
Proof.
  cbv zeta. unfold read_raw_entry_block, bind, f_readinto, raise, ret; cbn [fst].
  rewrite repeat_length.
  destruct (decompress _) as [buf|] eqn:D.
  - destruct (Z.of_nat (length buf) =? unpacked_length h) eqn:E; cbn [negb fst].
    + apply Z.eqb_eq in E. split; [discriminate|]. split; [intros b Hb Hne; congruence|].
      split; [intros b Hb; injection Hb as <-; split; [reflexivity|exact E]|discriminate].
    + apply Z.eqb_neq in E. split; [discriminate|]. split; [intros; reflexivity|].
      split; [discriminate|]. intros e He; injection He as <-; right; reflexivity.
  - split; [intros; reflexivity|]. split; [discriminate|]. split; [discriminate|].
    intros e He; injection He as <-; left; reflexivity.
Qed.

(** C3 counterexample: one data byte of a stored zlib stream changed, the
    block read raises zlib's error (Adler-32 mismatch), not the
    length-check error. *)
Lemma corrupt_block_raises_zlib_error :
  fst (read_raw_entry_block corrupt_payload zlib_decompress_stored corrupt_header
         (init_st (Ival:=text) false)) = Err ZlibError.
Proof. vm_compute. reflexivity. Qed.

(** C2 counterexample: a 0x4d-byte file, shorter than the 0x60-byte header,
    whose byte 0x4c is 0x20 is opened without error. *)
Lemma short_file_opens :
  (length short_header_file < sizeof DictHeader_fields)%nat
  /\ fst (read_body_header short_header_file (init_st (Ival:=text) false)) = Ok tt.
Proof. split; [vm_compute; lia | vm_compute; reflexivity]. Qed.

(** C5: an entry written as a 4-byte [EntryHeader] with [length = N]
    followed by [N] bytes that decode to [t] is framed back as [t], the
    cursor moves to the header's offset plus 4 + N; and a block buffer made
    of such entries is enumerated as exactly those texts, each with the
    offset of its header. *)
Theorem entry_framing_roundtrip (decode : list Z -> option text) :
  (forall (pre raw post : list Z) (t : text) (eh : list Z),
     length eh = 4%nat -> Z.of_nat (length raw) < 2 ^ 32 -> decode raw = Some t ->
     entry_from_block decode (pre ++ write_entry raw ++ post) (length pre) eh
     = Ok (t, (length pre + 4 + length raw)%nat, le32_bytes (Z.of_nat (length raw))))
  /\ (forall (raws : list (list Z)) (ts : list text), decodes decode raws ts ->
      read_entries_of decode (write_entries raws)
      = (combine (entry_offsets 0 raws) ts, None)).
Proof.
  split.
  - intros. apply entry_step; assumption.
  - intros raws ts Hd.
    rewrite <- (app_nil_r (write_entries raws)).
    rewrite <- (app_nil_r (combine (entry_offsets 0 raws) ts)).
    apply frame_from_start; [exact Hd|].
    intros fuel eh _ _. rewrite app_nil_r. apply read_entries_at_end.
Qed.

(** C10 (amended): when the last entry header of a block announces more
    bytes than remain, the framer reads the remaining bytes and leaves the
    rest of the entry buffer as zero bytes; if the configured encoding
    decodes that buffer, the entry is yielded with the full announced length
    and the enumeration ends normally, otherwise the decode error is raised
    after the preceding entries. *)
Theorem truncated_final_entry (decode : list Z -> option text)
  (raws : list (list Z)) (ts : list text) (n : nat) (rest : list Z) :
  decodes decode raws ts -> (length rest < n)%nat -> Z.of_nat n < 2 ^ 32 ->
  read_entries_of decode (write_entries raws ++ le32_bytes (Z.of_nat n) ++ rest)
  = match decode (rest ++ repeat 0 (n - length rest)) with
    | Some t =>
        (combine (entry_offsets 0 raws) ts ++ [(length (write_entries raws), t)], None)
    | None => (combine (entry_offsets 0 raws) ts, Some UnicodeDecodeError)
    end.
Proof.
  intros Hd Hr Hn.
  assert (Htail : forall fuel eh, length eh = 4%nat ->
            (length (le32_bytes (Z.of_nat n) ++ rest) <= fuel)%nat ->
            read_entries_loop decode fuel
              (write_entries raws ++ le32_bytes (Z.of_nat n) ++ rest)
              (length (write_entries raws)) eh
            = match decode (rest ++ repeat 0 (n - length rest)) with
              | Some t => ([(length (write_entries raws), t)], None)
              | None => ([], Some UnicodeDecodeError)
              end).
  { intros fuel eh Heh Hf.
    rewrite List.length_app, length_le32_bytes in Hf.
    apply truncated_step; assumption || lia. }
  destruct (decode (rest ++ repeat 0 (n - length rest))) as [t|].
  - apply frame_from_start; assumption.
  - rewrite <- (app_nil_r (combine (entry_offsets 0 raws) ts)).
    apply frame_from_start; assumption.
Qed.

(** C10 counterexample: a block holding only a header announcing 2 bytes
    followed by the single byte 0xC3; the zero byte supplied for the missing
    one makes the UTF-8 decoding fail, so the framer raises. *)
Lemma truncated_entry_decode_error :
  read_entries_of utf8_decode [2; 0; 0; 0; 195] = ([], Some UnicodeDecodeError).
Proof. vm_compute. reflexivity. Qed.

Lemma next_block_offset_witness :
  read_block_header_here two_block_file (opened two_block_file)
    = (Ok (mkBlockHeader 67 59 48, 167),
       snd (read_block_header_here two_block_file (opened two_block_file)))
  /\ 167 = f_pos (snd (read_block_header_here two_block_file (opened two_block_file)))
           + next_block (mkBlockHeader 67 59 48) - 8.
Proof.
  assert (H : read_block_header_here two_block_file (opened two_block_file)
              = (Ok (mkBlockHeader 67 59 48, 167),
                 snd (read_block_header_here two_block_file (opened two_block_file))))
    by (vm_compute; reflexivity).
  split; [exact H | exact (proj1 (next_block_offset _ _ _ _ _ H))].
Defined.

Lemma entry_framing_roundtrip_witness :
  decodes utf8_decode [ex_entry "a" "x"; ex_entry "b" "y"] [ex_entry "a" "x"; ex_entry "b" "y"]
  /\ read_entries_of utf8_decode (write_entries [ex_entry "a" "x"; ex_entry "b" "y"])
     = (combine (entry_offsets 0 [ex_entry "a" "x"; ex_entry "b" "y"])
          [ex_entry "a" "x"; ex_entry "b" "y"], None).
Proof.
  assert (H : decodes utf8_decode [ex_entry "a" "x"; ex_entry "b" "y"]
                [ex_entry "a" "x"; ex_entry "b" "y"]).
  { unfold decodes. repeat constructor; vm_compute; reflexivity. }
  split; [exact H | exact (proj2 (entry_framing_roundtrip utf8_decode) _ _ H)].
Defined.

Lemma truncated_final_entry_witness :
  decodes utf8_decode [ex_entry "a" "x"] [ex_entry "a" "x"] /\ (1 < 3)%nat
  /\ read_entries_of utf8_decode (write_entries [ex_entry "a" "x"] ++ le32_bytes 3 ++ [97])
     = (combine (entry_offsets 0 [ex_entry "a" "x"]) [ex_entry "a" "x"]
        ++ [(length (write_entries [ex_entry "a" "x"]), [97; 0; 0])], None).
Proof.
  assert (H : decodes utf8_decode [ex_entry "a" "x"] [ex_entry "a" "x"]).
  { unfold decodes. repeat constructor; vm_compute; reflexivity. }
  split; [exact H|]. split; [lia|].
  exact (truncated_final_entry utf8_decode [ex_entry "a" "x"] [ex_entry "a" "x"] 3 [97]
           H ltac:(simpl; lia) ltac:(vm_compute; reflexivity)).
Defined.

(** ** Block discovery, block seeks, index construction (claims C4, C7, C6) *)

(** C4 (code bug): on a container with one block, the second
    [_find_blocks] call finds only one entry in [self._block_pos], walks the
    chain again and reads the block header again; the table is unchanged. *)
Theorem find_blocks_rereads_single_block :
  let s0 := opened one_block_file in
  let r1 := find_blocks one_block_file s0 in
  let r2 := find_blocks one_block_file (snd r1) in
  fst r1 = Ok tt /\ fst r2 = Ok tt
  /\ block_pos (snd r2) = block_pos (snd r1)
  /\ reads (snd r2) = S (reads (snd r1)).
Proof. vm_compute. repeat split; reflexivity. Qed.

(** With two blocks the second call returns at once, without reading. *)
Lemma find_blocks_no_reread_two_blocks :
  let s0 := opened two_block_file in
  let r1 := find_blocks two_block_file s0 in
  let r2 := find_blocks two_block_file (snd r1) in
  fst r2 = Ok tt /\ snd r2 = snd r1.
Proof. vm_compute. split; reflexivity. Qed.

(** C7 (code bug): [seek_block] with an index outside [0, block_count)
    raises [KeyError] from the dict lookup; the [except IndexError] meant to
    turn it into [ValueError('Invalid block number')] never fires.  An index
    in range seeks to the recorded offset. *)
Theorem seek_block_out_of_range_keyerror :
  fst (seek_block two_block_file 2 (opened two_block_file)) = Err KeyError
  /\ fst (seek_block two_block_file (-1) (opened two_block_file)) = Err KeyError
  /\ fst (seek_block two_block_file 1 (opened two_block_file)) = Ok tt
  /\ Some (f_pos (snd (seek_block two_block_file 1 (opened two_block_file))))
     = block_pos (snd (seek_block two_block_file 1 (opened two_block_file))) !! 1.
Proof. vm_compute. repeat split; reflexivity. Qed.

(** C6 (code bug): an entry without the title marker makes [build_index]
    raise [ValueError] from [str.index] (the [except IndexError] does not
    catch it); the index is left holding the entries scanned before, and a
    second [build_index] call returns at once. *)
Theorem build_index_raises_on_untitled_entry :
  let s0 := opened untitled_entry_file in
  let r := build_index untitled_entry_file zlib_decompress_stored utf8_decode d_title s0 in
  fst r = Err (ValueError "substring not found")
  /\ option_map (fun idx => idx !! str_cp "a") (index (snd r)) = Some (Some [BO 0 0])
  /\ fst (build_index untitled_entry_file zlib_decompress_stored utf8_decode d_title (snd r))
     = Ok tt.
Proof. vm_compute. repeat split; reflexivity. Qed.

(** ** Index lookups (claims C8 and C9) *)

(** C8: after [open] and a successful [build_index], every [BlockOffset]
    recorded for a title is one at which the full [stream_all_entries] scan
    yields some text, and [_read_entry] at that [BlockOffset] (seek the block,
    decompress it, frame at the offset) returns exactly that text.  The
    decoder is assumed to turn zero bytes into no double quote, as UTF-8
    does: framing a stale, zero-filled header could otherwise yield text the
    fresh framing of [_read_entry] does not. *)
Theorem index_entries_match_scan {Ival : Type} (file : list Z)
  (decompress : list Z -> option (list Z)) (decode : list Z -> option text)
  (c : bool) (title_tag : text) (s0 s1 : st Ival) (idx : gmap text (list BlockOffset))
  (title : text) (bos : list BlockOffset) (bo : BlockOffset) :
  (forall n t, decode (repeat 0 n) = Some t -> ~ In 34 t) ->
  read_body_header file (init_st c) = (Ok tt, s0) ->
  build_index file decompress decode title_tag s0 = (Ok tt, s1) ->
  index s1 = Some idx -> idx !! title = Some bos -> In bo bos ->
  exists items txt,
    fst (stream_all_entries file decompress decode s0) = Ok items
    /\ In (bo_block bo, bo_offset bo, txt) items
    /\ fst (read_entry file decompress decode bo s1) = Ok txt.
Proof.
  intros Hz Hopen Hbuild Hidx Hbos Hbo.
  destruct (index_scan_facts file decompress decode c title_tag s0 s1 idx Hz Hopen Hbuild Hidx)
    as (Hbp & HW & R1 & _ & Hnil & its & Hstream & Hres & Hdef).
  assert (Hne : title <> []) by (intros ->; congruence).
  pose proof (Hdef title Hne) as Ht. rewrite Hbos in Ht. simpl in Ht. rewrite Ht in Hbo.
  apply in_map_iff in Hbo as (it & <- & Hin). apply List.filter_In in Hin as (Hin & _).
  exists its, (it_text it). split; [exact Hstream|]. split.
  - destruct it as [[b o] t]. exact Hin.
  - destruct (read_entry_pre_ready file decompress decode s0 Hbp HW (it_bo it) s1 R1)
      as (E & _ & _).
    rewrite E. apply Hres. exact Hin.
Qed.

Lemma index_entries_match_scan_witness :
  exists items txt,
    fst (stream_all_entries two_block_file zlib_decompress_stored utf8_decode two_block_s0) = Ok items
    /\ In (bo_block (BO 1 0), bo_offset (BO 1 0), txt) items
    /\ fst (read_entry two_block_file zlib_decompress_stored utf8_decode (BO 1 0) two_block_s1) = Ok txt.
Proof.
  apply (index_entries_match_scan two_block_file zlib_decompress_stored utf8_decode false d_title
           two_block_s0 two_block_s1 two_block_idx (str_cp "a") [BO 0 0; BO 1 0] (BO 1 0)).
  - exact utf8_zeros_no_quote.
  - vm_compute. reflexivity.
  - vm_compute. reflexivity.
  - vm_compute. reflexivity.
  - vm_compute. reflexivity.
  - simpl. right. left. reflexivity.
Defined.

(** C9: after [open] and a successful [build_index], the list kept for a
    non-empty title is the [BlockOffset]s of all entries of the full scan
    that carry that title, in scan order (a repeated title appends, it does
    not overwrite), and [__getitem__] returns the interpreted texts of those
    entries in that same order. *)
Theorem repeated_title_scan_order {Ival : Type} (file : list Z)
  (decompress : list Z -> option (list Z)) (decode : list Z -> option text)
  (interpret_text : text -> Ival)
  (c : bool) (title_tag : text) (s0 s1 : st Ival) (idx : gmap text (list BlockOffset))
  (title : text) :
  (forall n t, decode (repeat 0 n) = Some t -> ~ In 34 t) ->
  read_body_header file (init_st c) = (Ok tt, s0) ->
  build_index file decompress decode title_tag s0 = (Ok tt, s1) ->
  index s1 = Some idx -> title <> [] ->
  exists items,
    fst (stream_all_entries file decompress decode s0) = Ok items
    /\ default [] (idx !! title)
       = map it_bo (List.filter (title_is (title_tag ++ [61; 34]) title) items)
    /\ (List.filter (title_is (title_tag ++ [61; 34]) title) items <> [] ->
        fst (getitem file decompress decode interpret_text title s1)
        = Ok (map (fun it => interpret_text (it_text it))
                  (List.filter (title_is (title_tag ++ [61; 34]) title) items))).
Proof.
  intros Hz Hopen Hbuild Hidx Hne.
  destruct (index_scan_facts file decompress decode c title_tag s0 s1 idx Hz Hopen Hbuild Hidx)
    as (Hbp & HW & R1 & Hc & _ & its & Hstream & Hres & Hdef).
  exists its. split; [exact Hstream|]. split; [exact (Hdef title Hne)|].
  set (sel := List.filter (title_is (title_tag ++ [61; 34]) title) its).
  intros Hsel.
  assert (Hlook : idx !! title = Some (map it_bo sel)).
  { pose proof (Hdef title Hne) as D. fold sel in D.
    destruct (idx !! title) as [bos|]; simpl in D; [rewrite D; reflexivity|].
    destruct sel; [contradiction|discriminate]. }
  assert (Hnc : match cache s1 with Some c => c !! title | None => None end = None).
  { rewrite Hc. destruct c; simpl; [apply lookup_empty|reflexivity]. }
  assert (Hall : forall it, In it sel -> entry_res file decompress decode s0 (it_bo it) = Ok (it_text it)).
  { intros it Hin. apply Hres. apply List.filter_In in Hin. exact (proj1 Hin). }
  destruct (map_read_entries file decompress decode s0 Hbp HW interpret_text sel s1 R1 Hall)
    as (E & _ & _).
  unfold getitem. rewrite fst_bind. change (get s1) with (Ok s1, s1). cbv beta iota.
  rewrite Hnc, Hidx, Hlook. rewrite fst_bind.
  revert E. destruct (map_M _ (map it_bo sel) s1) as [r s2]. simpl. intros ->.
  reflexivity.
Qed.

Lemma repeated_title_scan_order_witness :
  exists items,
    fst (stream_all_entries two_block_file zlib_decompress_stored utf8_decode two_block_s0) = Ok items
    /\ default [] (two_block_idx !! str_cp "a")
       = map it_bo (List.filter (title_is (d_title ++ [61; 34]) (str_cp "a")) items)
    /\ (List.filter (title_is (d_title ++ [61; 34]) (str_cp "a")) items <> [] ->
        fst (getitem two_block_file zlib_decompress_stored utf8_decode (fun t => t)
               (str_cp "a") two_block_s1)
        = Ok (map (fun it => it_text it)
                  (List.filter (title_is (d_title ++ [61; 34]) (str_cp "a")) items))).
Proof.
  apply (repeated_title_scan_order two_block_file zlib_decompress_stored utf8_decode (fun t => t)
           false d_title two_block_s0 two_block_s1 two_block_idx (str_cp "a")).
  - exact utf8_zeros_no_quote.
  - vm_compute. reflexivity.
  - vm_compute. reflexivity.
  - vm_compute. reflexivity.
  - discriminate.
Defined.

(** The scenario of a title repeated across two blocks: "a" is listed at
    block 0, offset 0 and block 1, offset 0, and [__getitem__] returns both
    entries in that order. *)
Example two_block_repeated_title :
  two_block_idx !! str_cp "a" = Some [BO 0 0; BO 1 0]
  /\ fst (getitem two_block_file zlib_decompress_stored utf8_decode (fun t => t)
            (str_cp "a") two_block_s1)
     = Ok [ex_entry "a" "x"; ex_entry "a" "z"].
Proof. split; vm_compute; reflexivity. Qed.

(** ** Further properties of the reader *)

(** [structs._sanity_check] passes: every field offset and size it asserts for
    [DictHeader] and [BlockHeader] holds, so importing [structs] never fails;
    [KeyIndexHeader] (packed) has [check] at offset 0x42 and size 0x46, and
    [is_valid] holds iff the little-endian word at 0x42 is 0x20. *)
Theorem structs_sanity_check :
  sanity_check = true
  /\ field_offset "check" KeyIndexHeader_fields = 66%nat
  /\ sizeof KeyIndexHeader_fields = 70%nat
  /\ (forall bs, key_index_is_valid (parse_KeyIndexHeader bs) = (le32 bs 66 =? 32)).
Proof. split; [vm_compute; reflexivity|]. split; [reflexivity|]. split; reflexivity. Qed.

(** [_read_body_header] on a file of at least 0x60 bytes: one [readinto],
    the position ends at 0x60, index and cache are untouched; on a valid header
    it records [stream_length], [block_count] and [{0: 0x60}], on an invalid one
    it raises [ValueError] and leaves those attributes as they were. *)
Theorem read_body_header_state {Ival : Type} (file : list Z) (s : st Ival) :
  (96 <= length file)%nat ->
  let s' := snd (read_body_header file s) in
  f_pos s' = 96 /\ reads s' = S (reads s) /\ index s' = index s /\ cache s' = cache s
  /\ (if le32 file 76 =? 32
      then fst (read_body_header file s) = Ok tt
           /\ stream_length s' = le32 file 64 /\ block_count s' = le32 file 84
           /\ block_pos s' = {[0 := 96]}
      else fst (read_body_header file s) = Err (ValueError "Invalid dictionary header")
           /\ stream_length s' = stream_length s /\ block_count s' = block_count s
           /\ block_pos s' = block_pos s).
Proof.
  intros Hlen. unfold read_body_header, bind, f_seek, f_readinto, f_tell, modify, raise.
  change (0 <? 0) with false. cbv beta iota zeta.
  cbn [f_pos reads set_file]. rewrite drop_0.
  assert (Hl : length (take (length (repeat 0 (sizeof DictHeader_fields))) file) = 96%nat).
  { rewrite repeat_length, length_take. change (sizeof DictHeader_fields) with 96%nat. lia. }
  rewrite Hl. change (drop 96 (repeat 0 (sizeof DictHeader_fields))) with (@nil Z).
  rewrite app_nil_r. rewrite repeat_length. change (sizeof DictHeader_fields) with 96%nat.
  unfold is_valid, parse_DictHeader. cbn [dh_check dh_stream_length dh_block_count].
  change (field_offset "check" DictHeader_fields) with 76%nat.
  change (field_offset "stream_length" DictHeader_fields) with 64%nat.
  change (field_offset "block_count" DictHeader_fields) with 84%nat.
  rewrite !le32_take by lia.
  destruct (le32 file 76 =? 32); simpl; repeat split; reflexivity.
Qed.

Lemma read_body_header_state_witness :
  (96 <= length two_block_file)%nat /\
  (let s' := snd (read_body_header two_block_file (init_st (Ival:=text) false)) in
  f_pos s' = 96 /\ reads s' = S (reads (init_st (Ival:=text) false))
  /\ index s' = index (init_st (Ival:=text) false) /\ cache s' = cache (init_st (Ival:=text) false)
  /\ (if le32 two_block_file 76 =? 32
      then fst (read_body_header two_block_file (init_st (Ival:=text) false)) = Ok tt
           /\ stream_length s' = le32 two_block_file 64 /\ block_count s' = le32 two_block_file 84
           /\ block_pos s' = {[0 := 96]}
      else fst (read_body_header two_block_file (init_st (Ival:=text) false)) = Err (ValueError "Invalid dictionary header")
           /\ stream_length s' = stream_length (init_st (Ival:=text) false)
           /\ block_count s' = block_count (init_st (Ival:=text) false)
           /\ block_pos s' = block_pos (init_st (Ival:=text) false))).
Proof.
  assert (H : (96 <= length two_block_file)%nat) by (vm_compute; lia).
  split; [exact H|]. exact (read_body_header_state two_block_file (init_st false) H).
Defined.

(** [_read_entries] yields offsets that strictly increase and all lie inside
    the decompressed block. *)
Theorem read_entries_offsets_increasing (decode : list Z -> option text) (buf : list Z) :
  StronglySorted Nat.lt (map fst (fst (read_entries_of decode buf)))
  /\ Forall (fun o => o < length buf)%nat (map fst (fst (read_entries_of decode buf))).
Proof. exact (read_entries_of_offsets decode buf). Qed.

(** The [while] loop of [_read_entries] ends within [len(buf)] iterations:
    any larger iteration bound gives the same entries and the same exception. *)
Theorem read_entries_loop_bounded (decode : list Z -> option text) (buf : list Z) (fuel : nat) :
  (length buf <= fuel)%nat ->
  read_entries_loop decode fuel buf 0 (repeat 0 (sizeof EntryHeader_fields))
  = read_entries_of decode buf.
Proof.
  intros H. unfold read_entries_of. apply read_entries_loop_fuel; [reflexivity|lia|lia].
Qed.

Lemma read_entries_loop_bounded_witness :
  (length (write_entries [ex_entry "a" "x"; ex_entry "b" "y"]) <= 200)%nat /\
  read_entries_loop utf8_decode 200 (write_entries [ex_entry "a" "x"; ex_entry "b" "y"]) 0 (repeat 0 (sizeof EntryHeader_fields))
  = read_entries_of utf8_decode (write_entries [ex_entry "a" "x"; ex_entry "b" "y"]).
Proof.
  assert (H : (length (write_entries [ex_entry "a" "x"; ex_entry "b" "y"]) <= 200)%nat) by (vm_compute; lia).
  split; [exact H|]. exact (read_entries_loop_bounded utf8_decode _ 200 H).
Defined.

(** How [build_index] files one entry: the search tag is [title_tag], [=]
    and a double quote; when [title_tag], the text before the tag and the
    title hold no double quote, the title between the tag and the next double
    quote gets [BlockOffset(block, offset)] appended to its list (created if
    absent), and an empty title is skipped. *)
Theorem build_index_files_title (title_tag pre title post : text)
  (idx : gmap text (list BlockOffset)) (b : Z) (o : nat) :
  ~ In 34 title_tag -> ~ In 34 pre -> ~ In 34 title ->
  index_step (title_tag ++ [61; 34]) idx
    (b, o, pre ++ (title_tag ++ [61; 34]) ++ title ++ [34] ++ post)
  = Ok (match title with
        | [] => idx
        | _ => <[title := default [] (idx !! title) ++ [BO b o]]> idx
        end).
Proof.
  intros Ht Hp Hti. unfold index_step.
  rewrite str_index_found by (intros j Hj; apply tag_no_early_match; assumption).
  replace (drop _ (pre ++ (title_tag ++ [61; 34]) ++ title ++ [34] ++ post))
    with (title ++ [34] ++ post).
  2: { rewrite (app_assoc pre). symmetry. apply drop_app_length'.
       rewrite !List.length_app. reflexivity. }
  rewrite str_index_found by (intros j Hj; apply quote_no_early_match; assumption).
  rewrite take_app_length. destruct title; reflexivity.
Qed.

Lemma build_index_files_title_witness :
  ~ In 34 d_title /\ ~ In 34 (str_cp "<e ") /\ ~ In 34 (str_cp "a") /\
  index_step (d_title ++ [61; 34]) ∅
    (1, 5%nat, str_cp "<e " ++ (d_title ++ [61; 34]) ++ str_cp "a" ++ [34] ++ str_cp ">x</e>")
  = Ok (match str_cp "a" with [] => ∅
        | _ => <[str_cp "a" := default [] ((∅ : gmap text (list BlockOffset)) !! str_cp "a") ++ [BO 1 5]]> ∅ end).
Proof.
  assert (H1 : ~ In 34 d_title) by no_quote.
  assert (H2 : ~ In 34 (str_cp "<e ")) by no_quote.
  assert (H3 : ~ In 34 (str_cp "a")) by no_quote.
  split; [exact H1|]. split; [exact H2|]. split; [exact H3|].
  exact (build_index_files_title d_title (str_cp "<e ") (str_cp "a") (str_cp ">x</e>") ∅ 1 5 H1 H2 H3).
Defined.

(** After [open] and a successful [_find_blocks], [_block_pos] maps exactly
    0 and the block numbers below [block_count]; block 0 is at the end of the
    container header, and block [k+1] starts at the [next_block] offset that
    [_read_block_header] computes from the header at block [k]. *)
Theorem find_blocks_chain {Ival : Type} (file : list Z) (c : bool) (so s' : st Ival) :
  read_body_header file (init_st c) = (Ok tt, so) ->
  find_blocks file so = (Ok tt, s') ->
  let N := Z.of_nat (Z.to_nat (block_count so)) in
  block_pos s' !! 0 = Some (f_pos so)
  /\ (forall k, is_Some (block_pos s' !! k) <-> k = 0 \/ 0 <= k < N)
  /\ (forall k p (t : st Ival), 0 <= k -> k + 1 < N -> block_pos s' !! k = Some p -> f_pos t = p ->
        exists h nb, fst (read_block_header_here file t) = Ok (h, nb)
                     /\ block_pos s' !! (k + 1) = Some nb).
Proof.
  intros Ho Hf. destruct (opened_facts file c so Ho) as [Hb [Hp _]].
  rewrite (find_blocks_single file so (f_pos so) Hb) in Hf.
  unfold bind at 1, f_seek in Hf. rewrite (proj2 (Z.ltb_ge _ _) Hp) in Hf.
  set (sa := set_file so (f_pos so) (reads so)) in Hf.
  destruct (find_blocks_loop_chain file _ 0 sa s' Hf) as [O1 [O2 [O3 O4]]].
  assert (Ba : block_pos sa = {[0 := f_pos so]}) by exact Hb.
  cbv zeta. rewrite Nat.add_0_l in O1, O2, O4.
  assert (H0 : block_pos s' !! 0 = Some (f_pos so)).
  { destruct (Z.to_nat (block_count so)) as [|n] eqn:HN.
    - rewrite O1 by lia. rewrite Ba. apply lookup_singleton_eq.
    - apply O3. lia. }
  split; [exact H0|split].
  - intros k. split.
    + intros Hk. destruct (decide (k = 0)) as [->|Hne]; [left; reflexivity|right].
      destruct (decide (0 <= k < Z.of_nat (Z.to_nat (block_count so)))) as [Hr|Hr]; [exact Hr|].
      rewrite O1 in Hk by lia. rewrite Ba in Hk. rewrite lookup_singleton_ne in Hk by lia.
      destruct Hk as [? Hk]; discriminate.
    + intros [->|Hk]; [rewrite H0; eauto|]. apply O2. lia.
  - intros k p t Hk1 Hk2 Hq Ht. apply (O4 k p t); try lia; assumption.
Qed.

Lemma find_blocks_chain_witness :
  read_body_header two_block_file (init_st false) = (Ok tt, two_block_s0) /\
  find_blocks two_block_file two_block_s0 = (Ok tt, snd (find_blocks two_block_file two_block_s0)) /\
  (let s' := snd (find_blocks two_block_file two_block_s0) in
   let N := Z.of_nat (Z.to_nat (block_count two_block_s0)) in
   block_pos s' !! 0 = Some (f_pos two_block_s0)
   /\ (forall k, is_Some (block_pos s' !! k) <-> k = 0 \/ 0 <= k < N)
   /\ (forall k p (t : st text), 0 <= k -> k + 1 < N -> block_pos s' !! k = Some p -> f_pos t = p ->
        exists h nb, fst (read_block_header_here two_block_file t) = Ok (h, nb)
                     /\ block_pos s' !! (k + 1) = Some nb)).
Proof.
  assert (H1 : read_body_header two_block_file (init_st false) = (Ok tt, two_block_s0))
    by (vm_compute; reflexivity).
  assert (H2 : find_blocks two_block_file two_block_s0
               = (Ok tt, snd (find_blocks two_block_file two_block_s0)))
    by (vm_compute; reflexivity).
  split; [exact H1|]. split; [exact H2|].
  exact (find_blocks_chain two_block_file false two_block_s0 _ H1 H2).
Defined.

(** [__getitem__] never touches the index, and touches the cache only to add
    the result: on success the cache (if any) maps the word to the result and
    keeps every other entry (nothing is evicted); on an exception the cache is
    unchanged. *)
Theorem getitem_cache_effect {Ival : Type} (file : list Z) (decompress : list Z -> option (list Z))
  (decode : list Z -> option text) (interpret_text : text -> Ival) (word : text) (s : st Ival) :
  match getitem file decompress decode interpret_text word s with
  | (Ok m, s') => index s' = index s
                  /\ cache s' = match cache s with
                                | Some c => Some (<[word := m]> c)
                                | None => None
                                end
  | (Err _, s') => index s' = index s /\ cache s' = cache s
  end.
Proof. exact (getitem_cache_facts file decompress decode interpret_text word s). Qed.

(** With a cache, a word that [__getitem__] has returned once is served again
    from the cache: the second call returns the same list and changes no
    state, not even the file position. *)
Theorem getitem_served_from_cache {Ival : Type} (file : list Z)
  (decompress : list Z -> option (list Z)) (decode : list Z -> option text)
  (interpret_text : text -> Ival) (word : text) (s : st Ival) (c : gmap text (list Ival))
  (m : list Ival) :
  cache s = Some c ->
  fst (getitem file decompress decode interpret_text word s) = Ok m ->
  let s' := snd (getitem file decompress decode interpret_text word s) in
  getitem file decompress decode interpret_text word s' = (Ok m, s').
Proof.
  intros Hc Hm. pose proof (getitem_cache_facts file decompress decode interpret_text word s) as He.
  destruct (getitem file decompress decode interpret_text word s) as [[m'|e] s'];
    cbn [fst] in Hm; [|discriminate]. injection Hm as ->. cbv zeta. cbn [snd].
  destruct He as [_ Hc']. rewrite Hc in Hc'.
  unfold getitem, bind at 1, get. cbv beta iota. rewrite Hc', lookup_insert_eq. reflexivity.
Qed.

Lemma getitem_served_from_cache_witness :
  cache cached_s1 = Some ∅ /\
  fst (getitem two_block_file zlib_decompress_stored utf8_decode (fun t => t) (str_cp "a") cached_s1)
    = Ok [ex_entry "a" "x"; ex_entry "a" "z"] /\
  (let s' := snd (getitem two_block_file zlib_decompress_stored utf8_decode (fun t => t)
                    (str_cp "a") cached_s1) in
   getitem two_block_file zlib_decompress_stored utf8_decode (fun t => t) (str_cp "a") s'
   = (Ok [ex_entry "a" "x"; ex_entry "a" "z"], s')).
Proof.
  assert (H1 : cache cached_s1 = Some ∅) by reflexivity.
  assert (H2 : fst (getitem two_block_file zlib_decompress_stored utf8_decode (fun t => t)
                      (str_cp "a") cached_s1) = Ok [ex_entry "a" "x"; ex_entry "a" "z"])
    by (vm_compute; reflexivity).
  split; [exact H1|]. split; [exact H2|].
  exact (getitem_served_from_cache two_block_file zlib_decompress_stored utf8_decode
           (fun t => t) (str_cp "a") cached_s1 ∅ _ H1 H2).
Defined.

(** After [open], the entries of a complete [read_all_entries] come out in
    container order: by block, then by strictly increasing offset, each block
    number below [block_count]. *)
Theorem stream_entries_ordered {Ival : Type} (file : list Z)
  (decompress : list Z -> option (list Z)) (decode : list Z -> option text)
  (c : bool) (so : st Ival) (its : list (Z * nat * text)) :
  read_body_header file (init_st c) = (Ok tt, so) ->
  fst (stream_all_entries file decompress decode so) = Ok its ->
  StronglySorted entry_before its
  /\ Forall (fun it => 0 <= fst (fst it) < block_count so) its.
Proof. exact (stream_order_facts file decompress decode c so its). Qed.

Lemma stream_entries_ordered_witness :
  read_body_header two_block_file (init_st false) = (Ok tt, two_block_s0) /\
  fst (stream_all_entries two_block_file zlib_decompress_stored utf8_decode two_block_s0)
    = Ok (match fst (stream_all_entries two_block_file zlib_decompress_stored utf8_decode two_block_s0) with
          | Ok l => l | Err _ => [] end) /\
  (let its := match fst (stream_all_entries two_block_file zlib_decompress_stored utf8_decode two_block_s0) with
              | Ok l => l | Err _ => [] end in
   StronglySorted entry_before its /\ Forall (fun it => 0 <= fst (fst it) < block_count two_block_s0) its).
Proof.
  assert (H1 : read_body_header two_block_file (init_st false) = (Ok tt, two_block_s0))
    by (vm_compute; reflexivity).
  assert (H2 : fst (stream_all_entries two_block_file zlib_decompress_stored utf8_decode two_block_s0)
    = Ok (match fst (stream_all_entries two_block_file zlib_decompress_stored utf8_decode two_block_s0) with
          | Ok l => l | Err _ => [] end)) by (vm_compute; reflexivity).
  split; [exact H1|]. split; [exact H2|].
  exact (stream_entries_ordered two_block_file zlib_decompress_stored utf8_decode false _ _ H1 H2).
Defined.

(** After [open] and a successful [build_index], no title is empty and every
    title's [BlockOffset] list is strictly increasing in container order (so
    holds no repeats), with every block number below [block_count]. *)
Theorem build_index_lists_sorted {Ival : Type} (file : list Z)
  (decompress : list Z -> option (list Z)) (decode : list Z -> option text)
  (c : bool) (title_tag : text) (s0 s1 : st Ival) (idx : gmap text (list BlockOffset)) :
  read_body_header file (init_st c) = (Ok tt, s0) ->
  build_index file decompress decode title_tag s0 = (Ok tt, s1) ->
  index s1 = Some idx ->
  idx !! [] = None
  /\ (forall title bos, idx !! title = Some bos ->
        StronglySorted bo_before bos
        /\ Forall (fun bo => 0 <= bo_block bo < block_count s0) bos).
Proof.
  intros Ho Hb Hi. destruct (index_scan_core file decompress decode c title_tag s0 s1 idx Ho Hb Hi)
    as (Hnil & its & Hs & Hdef).
  destruct (stream_order_facts file decompress decode c s0 its Ho Hs) as [S1 F1].
  split; [exact Hnil|]. intros title bos Ht.
  assert (Hne : title <> []) by (intros ->; congruence).
  pose proof (Hdef title Hne) as D. rewrite Ht in D. simpl in D. rewrite D.
  split.
  - apply (ssorted_map entry_before); [|apply ssorted_filter; exact S1].
    intros a b H. exact H.
  - apply List.Forall_forall. intros bo Hbo. apply in_map_iff in Hbo as [it [<- Hit]].
    apply filter_In in Hit as [Hit _]. rewrite List.Forall_forall in F1. exact (F1 it Hit).
Qed.

Lemma build_index_lists_sorted_witness :
  read_body_header two_block_file (init_st false) = (Ok tt, two_block_s0) /\
  build_index two_block_file zlib_decompress_stored utf8_decode d_title two_block_s0
    = (Ok tt, two_block_s1) /\
  index two_block_s1 = Some two_block_idx /\
  (two_block_idx !! [] = None
   /\ (forall title bos, two_block_idx !! title = Some bos ->
         StronglySorted bo_before bos
         /\ Forall (fun bo => 0 <= bo_block bo < block_count two_block_s0) bos)).
Proof.
  assert (H1 : read_body_header two_block_file (init_st false) = (Ok tt, two_block_s0))
    by (vm_compute; reflexivity).
  assert (H2 : build_index two_block_file zlib_decompress_stored utf8_decode d_title two_block_s0
               = (Ok tt, two_block_s1)) by (vm_compute; reflexivity).
  assert (H3 : index two_block_s1 = Some two_block_idx) by (vm_compute; reflexivity).
  split; [exact H1|]. split; [exact H2|]. split; [exact H3|].
  exact (build_index_lists_sorted two_block_file zlib_decompress_stored utf8_decode false d_title
           _ _ _ H1 H2 H3).
Defined.

(** A [build_index] that raises leaves the partial index set, so the next
    [build_index] returns at once without an exception and changes nothing. *)
Theorem build_index_failure_sticks {Ival : Type} (file : list Z)
  (decompress : list Z -> option (list Z)) (decode : list Z -> option text)
  (title_tag : text) (s : st Ival) (e : exn) :
  index s = None ->
  fst (build_index file decompress decode title_tag s) = Err e ->
  let s' := snd (build_index file decompress decode title_tag s) in
  is_Some (index s')
  /\ build_index file decompress decode title_tag s' = (Ok tt, s').
Proof.
  intros Hi He. cbv zeta.
  assert (Hs : is_Some (index (snd (build_index file decompress decode title_tag s)))).
  { rewrite (build_index_run file decompress decode title_tag s Hi).
    apply (hi_loop file decompress decode). simpl. eexists; reflexivity. }
  split; [exact Hs|].
  destruct Hs as [idx Hidx].
  unfold build_index at 1, bind at 1, get. cbv beta iota. rewrite Hidx. reflexivity.
Qed.

Lemma build_index_failure_sticks_witness :
  index (opened untitled_entry_file) = None /\
  fst (build_index untitled_entry_file zlib_decompress_stored utf8_decode d_title
         (opened untitled_entry_file)) = Err (ValueError "substring not found") /\
  (let s' := snd (build_index untitled_entry_file zlib_decompress_stored utf8_decode d_title
                    (opened untitled_entry_file)) in
   is_Some (index s')
   /\ build_index untitled_entry_file zlib_decompress_stored utf8_decode d_title s' = (Ok tt, s')).
Proof.
  assert (H1 : index (opened untitled_entry_file) = None) by (vm_compute; reflexivity).
  assert (H2 : fst (build_index untitled_entry_file zlib_decompress_stored utf8_decode d_title
                      (opened untitled_entry_file)) = Err (ValueError "substring not found"))
    by (vm_compute; reflexivity).
  split; [exact H1|]. split; [exact H2|].
  exact (build_index_failure_sticks untitled_entry_file zlib_decompress_stored utf8_decode
           d_title _ _ H1 H2).
Defined.

